(** * Slab design engine (TS500 coefficient method): a shallow embedding

    Python floats are modelled as exact rationals [Q]; every float literal of
    the source ([1e-12], [0.0035], ...) becomes the rational it denotes, and
    [math.pi] becomes the exact rational value of the IEEE double.  Functions
    that can raise ([StopIteration] from [next], [KeyError], [IndexError])
    return [option].  The module [constant.py] is not part of the sources:
    the bar catalog ([PHI_GRID], [S_GRID]) and the design chart
    ([K_TABLE_ROWS]) are taken as parameters of the definitions, so the
    theorems hold for every catalog and chart. *)

From Stdlib Require Import QArith Qminmax Qround Qabs Lqa Lia List Bool ZArith String Ascii.
From Stdlib Require Import Sorting.Mergesort Sorting.Sorted Permutation Orders.
Import ListNotations.

Open Scope Q_scope.

(* ================================================================== *)
(** ** Python numeric helpers *)

(** [a < b] on floats. *)
Definition Qltb (a b : Q) : bool := negb (Qle_bool b a).

(** Python's [max(a, b)]: the first argument unless the second is larger. *)
Definition py_max (a b : Q) : Q := if Qltb a b then b else a.

(** Python's [min(a, b)]: the first argument unless the second is smaller. *)
Definition py_min (a b : Q) : Q := if Qltb b a then b else a.

(** [1e-12] *)
Definition EPS12 : Q := 1 # 1000000000000.

(** utils.lerp *)
Definition lerp (a b t : Q) : Q := a + (b - a) * t.

(* ================================================================== *)
(** ** utils.calculate_net_span *)

(** [L_gross] in metres, beam widths in millimetres. *)
Definition calculate_net_span (L_gross beam_w_left_mm beam_w_right_mm : Q) : Q :=
  let deduction := (beam_w_left_mm + beam_w_right_mm) / 2000 in
  py_max (L_gross - deduction) (1 # 10).

(* ================================================================== *)
(** ** design.thickness_check_oneway *)

(** The [ThicknessCheck] dataclass; its free-text [note] is not modelled. *)
Record ThicknessCheck := mkThicknessCheck {
  h_min_mm : Q;
  ok : bool
}.

Definition thickness_check_oneway (Lsn h_mm : Q) : ThicknessCheck :=
  let ln := py_max Lsn (1 # 10) in
  let h_min := py_max ((ln * 1000) / 30) 80 in
  let ok := Qle_bool h_min h_mm in
  mkThicknessCheck h_min ok.

(* ================================================================== *)
(** ** design.compute, steps 1 and 2: net spans and slab type *)

Inductive SlabType := one_way | two_way.

(** The geometric part of [InputData]. *)
Record Geometry := mkGeometry {
  lx : Q; ly : Q;
  beam_w_left_x : Q; beam_w_right_x : Q;
  beam_w_left_y : Q; beam_w_right_y : Q
}.

Definition net_spans (data : Geometry) : Q * Q :=
  (calculate_net_span data.(lx) data.(beam_w_left_x) data.(beam_w_right_x),
   calculate_net_span data.(ly) data.(beam_w_left_y) data.(beam_w_right_y)).

(** [m = L_long_net / L_short_net if L_short_net > 0.01 else 1.0] *)
Definition aspect_ratio (data : Geometry) : Q :=
  let '(Lsn_x, Lsn_y) := net_spans data in
  let L_short_net := py_min Lsn_x Lsn_y in
  let L_long_net := py_max Lsn_x Lsn_y in
  if Qltb (1 # 100) L_short_net then L_long_net / L_short_net else 1.

(** [slab_type = "one_way" if m > 2.0 else "two_way"] *)
Definition slab_type (data : Geometry) : SlabType :=
  if Qltb 2 (aspect_ratio data) then one_way else two_way.

(* ================================================================== *)
(** ** utils.as_cm2_per_m *)

(** [math.pi] as the exact value of the IEEE double. *)
Definition math_pi : Q := 884279719003555 # 281474976710656.

Definition as_cm2_per_m (phi_mm s_cm : Q) : Q :=
  let s_mm := s_cm * 10 in
  let a_bar := math_pi * (phi_mm * phi_mm) / 4 in
  let as_mm2_per_m := a_bar * 1000 / s_mm in
  as_mm2_per_m / 100.

(* ================================================================== *)
(** ** Python string helpers used by the steel-grade rules *)

Definition is_py_space (c : ascii) : bool :=
  existsb (Nat.eqb (nat_of_ascii c)) [9; 10; 11; 12; 13; 32]%nat.

Fixpoint lstrip_list (l : list ascii) : list ascii :=
  match l with
  | [] => []
  | c :: r => if is_py_space c then lstrip_list r else l
  end.

(** [str.strip()] *)
Definition py_strip (s : string) : string :=
  let l := lstrip_list (list_ascii_of_string s) in
  string_of_list_ascii (List.rev (lstrip_list (List.rev l))).

Definition py_upper_char (c : ascii) : ascii :=
  let n := nat_of_ascii c in
  if (97 <=? n)%nat && (n <=? 122)%nat then ascii_of_nat (n - 32) else c.

(** [str.upper()] on ASCII text. *)
Fixpoint py_upper (s : string) : string :=
  match s with
  | EmptyString => EmptyString
  | String c r => String (py_upper_char c) (py_upper r)
  end.

(** [pat in s] *)
Fixpoint py_contains (pat s : string) : bool :=
  prefix pat s ||
  match s with
  | EmptyString => false
  | String _ r => py_contains pat r
  end.

(** utils.rho_min_oneway *)
Definition rho_min_oneway (steel : string) : Q :=
  let s := py_upper (py_strip steel) in
  if py_contains "220" s then 3 # 1000 else 2 # 1000.

(** utils.steel_group: ["B500" if "500" in s else "S420"] *)
Inductive SteelGroup := S420 | B500.

Definition steel_group (name : string) : SteelGroup :=
  let s := py_upper (py_strip name) in
  if py_contains "500" s then B500 else S420.

(* ================================================================== *)
(** ** design.compute_twoway: minimum bottom reinforcement

    Lines "Minimum reinforcement checks" of [compute_twoway]: from the
    moment-derived areas [Asx_pos_M], [Asy_pos_M] (mm2/m) to the required
    bottom areas passed to [build_design]. *)

Definition twoway_bottom_requirements
    (Asx_pos_M Asy_pos_M : Q) (steel : string) (b_mm d_mm : Q) : Q * Q :=
  (* 1. Each direction: rho >= rho_min *)
  let rho_min_single := rho_min_oneway steel in
  let As_min_single := rho_min_single * b_mm * d_mm in
  let Asx_pos_req := py_max Asx_pos_M As_min_single in
  let Asy_pos_req := py_max Asy_pos_M As_min_single in
  (* 2. Total: rho_x + rho_y >= 0.0035 *)
  let As_min_total := (35 # 10000) * b_mm * d_mm in
  let As_sum := Asx_pos_req + Asy_pos_req in
  if Qltb As_sum As_min_total && Qltb EPS12 As_sum then
    let scale := As_min_total / As_sum in
    (Asx_pos_req * scale, Asy_pos_req * scale)
  else (Asx_pos_req, Asy_pos_req).

(* ================================================================== *)
(** ** [next(...)] over consecutive pairs

    [hi = next(i for i in range(1, len(xs)) if test(xs[i])); lo = hi - 1]
    followed by [xs[lo], xs[hi]]: the first element after the head that
    passes [test], with its predecessor.  [None] is [StopIteration]. *)

Fixpoint next_bracket {A : Type} (test : A -> bool) (prev : A) (rest : list A)
    : option (A * A) :=
  match rest with
  | [] => None
  | c :: r => if test c then Some (prev, c) else next_bracket test c r
  end.

(* ================================================================== *)
(** ** Bar catalog and bar selection (core.py, utils.best_spacing_for_phi) *)

Record BarChoice := mkBarChoice {
  phi : Z;
  s_cm : Q;
  As_prov_mm2_per_m : Q;
  As_prov_cm2_per_m : Q;
  ratio : Q
}.

(** [BarChoice(0, 0.0, 0.0, 0.0, 0.0)] *)
Definition zero_choice : BarChoice := mkBarChoice 0 0 0 0 0.

(** The [MainRebarLayout] dataclass; its [ratio] field is [ml_ratio]. *)
Record MainRebarLayout := mkMainRebarLayout {
  straight : BarChoice;
  pilye : BarChoice;
  As_total_prov_mm2_per_m : Q;
  As_total_req_mm2_per_m : Q;
  ml_ratio : Q
}.

(** The update [if best is None or cand.ratio < best.ratio: best = cand]. *)
Definition keep_better {A : Type} (ratio_of : A -> Q) (best : option A) (cand : A)
    : option A :=
  match best with
  | None => Some cand
  | Some b => if Qltb (ratio_of cand) (ratio_of b) then Some cand else best
  end.

(** [list.index] *)
Fixpoint index_of (x : Z) (l : list Z) : nat :=
  match l with
  | [] => O
  | y :: r => if Z.eqb x y then O else S (index_of x r)
  end.

Section Catalog.

(** Bar diameters (mm) and spacings (cm) of [constant.py]. *)
Variable PHI_GRID : list Z.
Variable S_GRID : list Q.

(** [AS_GRID = [[as_cm2_per_m(phi, s) for phi in PHI_GRID] for s in S_GRID]] *)
Definition AS_GRID : list (list Q) :=
  map (fun s => map (fun p => as_cm2_per_m (inject_Z p) s) PHI_GRID) S_GRID.

Definition best_spacing_for_phi
    (As_req_mm2_per_m : Q) (phi : Z) (s_max_mm s_min_mm : Z) : option BarChoice :=
  if Qle_bool As_req_mm2_per_m EPS12 then Some (mkBarChoice phi 0 0 0 0) else
  if negb (existsb (Z.eqb phi) PHI_GRID) then None else
  let As_req_cm2 := As_req_mm2_per_m / 100 in
  let s_max_cm := inject_Z s_max_mm / 10 in
  let s_min_cm := inject_Z s_min_mm / 10 in
  let pj := index_of phi PHI_GRID in
  fold_left
    (fun best (si_s : nat * Q) =>
       let (si, s) := si_s in
       if Qltb s s_min_cm || Qltb s_max_cm s then best else
       let As_cm2 := nth pj (nth si AS_GRID []) 0 in
       if Qltb (As_cm2 + EPS12) As_req_cm2 then best else
       let r := As_cm2 / As_req_cm2 in
       keep_better ratio best (mkBarChoice phi s (As_cm2 * 100) As_cm2 r))
    (combine (seq 0 (List.length S_GRID)) S_GRID) None.

Definition choose_main_rebar_half_half_same_phi
    (As_req_mm2_per_m : Q) (s_max_main_mm s_min_main_mm phi_min_main : Z)
    : MainRebarLayout :=
  let z := zero_choice in
  if Qle_bool As_req_mm2_per_m EPS12 then mkMainRebarLayout z z 0 0 0 else
  let As_half := As_req_mm2_per_m / 2 in
  let best_layout :=
    fold_left
      (fun best p =>
         if Z.ltb p phi_min_main then best else
         let straight := best_spacing_for_phi As_half p s_max_main_mm s_min_main_mm in
         let pilye := best_spacing_for_phi As_half p s_max_main_mm s_min_main_mm in
         match straight, pilye with
         | Some st, Some pl =>
             let As_prov := st.(As_prov_mm2_per_m) + pl.(As_prov_mm2_per_m) in
             let r := As_prov / As_req_mm2_per_m in
             keep_better ml_ratio best (mkMainRebarLayout st pl As_prov As_req_mm2_per_m r)
         | _, _ => best
         end)
      PHI_GRID None in
  match best_layout with
  | Some l => l
  | None => mkMainRebarLayout z z 0 As_req_mm2_per_m 0
  end.

Definition choose_single_layer_rebar
    (As_req_mm2_per_m : Q) (s_max_mm s_min_mm phi_min : Z) : BarChoice :=
  if Qle_bool As_req_mm2_per_m EPS12 then zero_choice else
  let best :=
    fold_left
      (fun best p =>
         if Z.ltb p phi_min then best else
         match best_spacing_for_phi As_req_mm2_per_m p s_max_mm s_min_mm with
         | None => best
         | Some cand => keep_better ratio best cand
         end)
      PHI_GRID None in
  match best with
  | Some b => b
  | None => zero_choice
  end.

End Catalog.

(* ================================================================== *)
(** ** Design chart (utils.K_row_concrete_value, utils.ks_from_Kcalc) *)

(** [bind] for the exception-as-[option] encoding. *)
Definition obind {A B : Type} (m : option A) (f : A -> option B) : option B :=
  match m with Some a => f a | None => None end.

Notation "x <- m ;; k" := (obind m (fun x => k))
  (at level 61, m at next level, right associativity).

(** A row of [K_TABLE_ROWS]: [row[0]], the chart values [row[1..6]] for the
    grades C25..C50, and the coefficients [row[7]] (S420) and [row[8]] (B500). *)
Record KRow := mkKRow {
  k_row0 : Q;
  k_c25 : Q; k_c30 : Q; k_c35 : Q; k_c40 : Q; k_c45 : Q; k_c50 : Q;
  ks_s420 : Q; ks_b500 : Q
}.

(** Modelled from the spec: [CONC_NODES] of the missing [constant.py], the
    tabulated concrete grades of the chart, which are the keys of [K_map]. *)
Definition CONC_NODES : list Q := [25; 30; 35; 40; 45; 50].

(** [K_map[f]]: a dict keyed by the floats 25.0 .. 50.0; [None] is [KeyError]. *)
Definition K_map (row : KRow) (f : Q) : option Q :=
  if Qeq_bool f 25 then Some row.(k_c25) else
  if Qeq_bool f 30 then Some row.(k_c30) else
  if Qeq_bool f 35 then Some row.(k_c35) else
  if Qeq_bool f 40 then Some row.(k_c40) else
  if Qeq_bool f 45 then Some row.(k_c45) else
  if Qeq_bool f 50 then Some row.(k_c50) else None.

Definition K_row_concrete_value (row : KRow) (fck : Q) : option Q :=
  if Qle_bool fck 25 then K_map row 25 else
  if Qle_bool 50 fck then K_map row 50 else
  match CONC_NODES with
  | [] => None
  | n0 :: ns =>
      fs <- next_bracket (fun c => Qle_bool fck c) n0 ns ;;
      let (f1, f2) := fs in
      let t := (fck - f1) / (f2 - f1) in
      a <- K_map row f1 ;;
      b <- K_map row f2 ;;
      Some (lerp a b t)
  end.

(** [r[7] if grp == "S420" else r[8]] *)
Definition ks_col (grp : SteelGroup) (r : KRow) : Q :=
  match grp with S420 => r.(ks_s420) | B500 => r.(ks_b500) end.

(** A list comprehension whose body may raise. *)
Fixpoint map_option {A B : Type} (f : A -> option B) (l : list A) : option (list B) :=
  match l with
  | [] => Some []
  | a :: r => b <- f a ;; bs <- map_option f r ;; Some (b :: bs)
  end.

(** [ks_from_Kcalc], with the chart [K_TABLE_ROWS] as a parameter. *)
Definition ks_from_Kcalc (K_TABLE_ROWS : list KRow)
    (Kcalc_x1e5 fck : Q) (steel : string) : option Q :=
  let grp := steel_group steel in
  Kvals <- map_option (fun r => K_row_concrete_value r fck) K_TABLE_ROWS ;;
  (* Kvals[i] together with K_TABLE_ROWS[i] *)
  match combine Kvals K_TABLE_ROWS with
  | [] => None
  | (K0, r0) :: rest =>
      if Qle_bool K0 Kcalc_x1e5 then Some (ks_col grp r0) else
      let (Kl, rl) := last rest (K0, r0) in
      if Qle_bool Kcalc_x1e5 Kl then Some (ks_col grp rl) else
      b <- next_bracket (fun kr : Q * KRow => Qle_bool (fst kr) Kcalc_x1e5) (K0, r0) rest ;;
      let '((K1, r1), (K2, r2)) := b in
      let ks1 := ks_col grp r1 in
      let ks2 := ks_col grp r2 in
      let t := (Kcalc_x1e5 - K1) / (K2 - K1) in
      Some (lerp ks1 ks2 t)
  end.

(* ================================================================== *)
(** ** utils.interp_piecewise *)

(** [sorted] on float keys. *)
Module QLeBool <: TotalLeBool'.
Definition t := Q.
Definition leb := Qle_bool.
Infix "<=?" := leb (at level 70, no associativity).
Lemma leb_total : forall x y, (x <=? y) = true \/ (y <=? x) = true.
Proof.
  intros x y. unfold leb. rewrite !Qle_bool_iff.
  destruct (Qlt_le_dec x y); [left; apply Qlt_le_weak | right]; assumption.
Qed.
End QLeBool.

Module QSort := Sort QLeBool.

(** A [Dict[float, float]] as an association list; [None] is [KeyError]. *)
Fixpoint dict_get (d : list (Q * Q)) (k : Q) : option Q :=
  match d with
  | [] => None
  | (k', v) :: r => if Qeq_bool k k' then Some v else dict_get r k
  end.

Definition interp_piecewise (points : list (Q * Q)) (x : Q) : option Q :=
  let xs := QSort.sort (map fst points) in
  match xs with
  | [] => None
  | x0 :: rest =>
      if Qle_bool x x0 then dict_get points x0 else
      if Qle_bool (last rest x0) x then dict_get points (last rest x0) else
      b <- next_bracket (fun c => Qle_bool x c) x0 rest ;;
      let (x1, x2) := b in
      let t := (x - x1) / (x2 - x1) in
      a <- dict_get points x1 ;;
      c <- dict_get points x2 ;;
      Some (lerp a c t)
  end.

(* ================================================================== *)
(** ** Catalog pairs admitted by the selection *)

(** A catalog pair (diameter [p], spacing [s]) that the search of
    [best_spacing_for_phi] admits for [As_req] (mm2/m): diameter at least
    [phi_min], spacing within the bounds (cm) and provided area within the
    1e-12 cm2/m tolerance of the requirement. *)
Definition admitted_pair (PHI_GRID : list Z) (S_GRID : list Q)
    (As_req : Q) (s_max_mm s_min_mm phi_min : Z) (p : Z) (s : Q) : Prop :=
  In p PHI_GRID /\ (phi_min <= p)%Z /\ In s S_GRID /\
  inject_Z s_min_mm / 10 <= s /\ s <= inject_Z s_max_mm / 10 /\
  As_req / 100 <= as_cm2_per_m (inject_Z p) s + EPS12.

(** Modelled from the spec: a bar catalog of the shape the spec describes
    (ascending diameters in mm, ascending spacings in cm); the actual
    [PHI_GRID] and [S_GRID] live in the missing [constant.py]. *)
Definition PHI_GRID_sample : list Z := [6; 8; 10; 12; 14; 16]%Z.

Definition S_GRID_sample : list Q :=
  map (fun n => inject_Z (Z.of_nat n)) (seq 7 24).

(* ================================================================== *)
(** ** Shape of the design chart *)

(** Every per-grade chart value of [r'] lies strictly below that of [r]. *)
Definition chart_row_below (r' r : KRow) : Prop :=
  r'.(k_c25) < r.(k_c25) /\ r'.(k_c30) < r.(k_c30) /\ r'.(k_c35) < r.(k_c35) /\
  r'.(k_c40) < r.(k_c40) /\ r'.(k_c45) < r.(k_c45) /\ r'.(k_c50) < r.(k_c50).

(** The structure the spec gives [K_TABLE_ROWS]: going down the rows the
    chart values decrease strictly in every grade column and both
    coefficient columns are non-decreasing. *)
Fixpoint chart_ordered (rows : list KRow) : Prop :=
  match rows with
  | r :: ((r' :: _) as tl) =>
      chart_row_below r' r /\ r.(ks_s420) <= r'.(ks_s420) /\
      r.(ks_b500) <= r'.(ks_b500) /\ chart_ordered tl
  | _ => True
  end.

(** Pairs [(Kvals[i], K_TABLE_ROWS[i])] with strictly decreasing [Kvals]
    and non-decreasing coefficients of group [grp]. *)
Fixpoint desc_chain (grp : SteelGroup) (l : list (Q * KRow)) : Prop :=
  match l with
  | p :: ((q :: _) as tl) =>
      fst q < fst p /\ ks_col grp (snd p) <= ks_col grp (snd q) /\ desc_chain grp tl
  | _ => True
  end.

(** The interpolation below the first row of [ks_from_Kcalc], written as a
    recursion over consecutive rows. *)
Fixpoint ks_segment (grp : SteelGroup) (p : Q * KRow) (rest : list (Q * KRow)) (x : Q) : Q :=
  match rest with
  | [] => ks_col grp (snd p)
  | q :: rest' =>
      if Qle_bool (fst q) x
      then lerp (ks_col grp (snd p)) (ks_col grp (snd q)) ((x - fst p) / (fst q - fst p))
      else ks_segment grp q rest' x
  end.

(** Modelled from the spec: a three-row design chart with the structure the
    spec describes (chart values decreasing down the rows, coefficients
    increasing); the actual [K_TABLE_ROWS] lives in the missing
    [constant.py]. *)
Definition K_TABLE_ROWS_sample : list KRow :=
  [mkKRow (2 # 10) 40 38 36 34 32 30 (290 # 100) (240 # 100);
   mkKRow (1 # 10) 20 19 18 17 16 15 (300 # 100) (250 # 100);
   mkKRow (1 # 20) 10 9 8 7 6 5 (320 # 100) (270 # 100)].

(* ================================================================== *)
(** ** utils.validate_coefficient_method_applicability *)

(** The entries of [issues]: each message with the ratio it prints (the
    [{:.2f}] text itself is not modelled). *)
Inductive CoefIssue :=
  | issue_qg_ratio (qg_ratio : Q)
  | issue_g_zero
  | issue_span_ratio (span_ratio : Q)
  | issue_L_max_zero.

(** The entries of [details], in the same way. *)
Inductive CoefDetail :=
  | detail_qg_too_high (qg_ratio : Q)
  | detail_qg_ok (qg_ratio : Q)
  | detail_g_zero
  | detail_span_too_low (span_ratio : Q)
  | detail_span_ok (span_ratio : Q)
  | detail_L_max_zero.

(** [(is_applicable, issues, details)]; the summary text is not modelled. *)
Definition validate_coefficient_method_applicability (q g L_min L_max : Q)
    : bool * list CoefIssue * list CoefDetail :=
  (* Check q/g ratio *)
  let '(issues, details) :=
    if Qltb 0 g then
      let qg_ratio := q / g in
      if Qltb 2 qg_ratio
      then ([issue_qg_ratio qg_ratio], [detail_qg_too_high qg_ratio])
      else ([], [detail_qg_ok qg_ratio])
    else ([issue_g_zero], [detail_g_zero]) in
  (* Check span ratio *)
  let '(issues, details) :=
    if Qltb 0 L_max then
      let span_ratio := L_min / L_max in
      if Qle_bool span_ratio (4 # 5)
      then (issues ++ [issue_span_ratio span_ratio],
            details ++ [detail_span_too_low span_ratio])
      else (issues, details ++ [detail_span_ok span_ratio])
    else (issues ++ [issue_L_max_zero], details ++ [detail_L_max_zero]) in
  let is_applicable := Nat.eqb (List.length issues) 0 in
  (is_applicable, issues, details).

(* ================================================================== *)
(** ** utils.calculate_loads *)

(** [(g_self_weight, g_total, q_live, pd_factored)] *)
Definition calculate_loads (h_mm g_additional q_live : Q) : Q * Q * Q * Q :=
  let g_self_weight := (h_mm / 1000) * 25 in
  let g_total := g_self_weight + g_additional in
  let pd_factored := (14 # 10) * g_total + (16 # 10) * q_live in
  (g_self_weight, g_total, q_live, pd_factored).

(* ================================================================== *)
(** ** utils.parse_concrete *)

(** [name[1:]] *)
Definition py_drop1 (s : string) : string :=
  match s with
  | EmptyString => EmptyString
  | String _ r => r
  end.

Section Float.

(** Python's [float(str)]; [None] is the [ValueError] it raises. *)
Variable py_float : string -> option Q.

(** [None] is [ValueError]. *)
Definition parse_concrete (name : string) : option Q :=
  let name := py_upper (py_strip name) in
  if negb (prefix "C" name) then None else py_float (py_drop1 name).

End Float.

(* ================================================================== *)
(** ** utils.edge_continuity_note_for_case *)

(** [e in l] on a list of strings. *)
Definition py_in (e : string) (l : list string) : bool := existsb (String.eqb e) l.

(** [sep.join(l)] *)
Fixpoint py_join (sep : string) (l : list string) : string :=
  match l with
  | [] => EmptyString
  | [x] => x
  | x :: r => String.append x (String.append sep (py_join sep r))
  end.

(** The lists [cont] (continuous edges) and [disc] (discontinuous edges)
    that [edge_continuity_note_for_case] computes before formatting. *)
Definition edge_sets (case_id : Z) (lx ly : Q) : list string * list string :=
  let short_is_x := Qle_bool lx ly in
  let short_edges :=
    if short_is_x then ["y=0"%string; "y=ly"%string] else ["x=0"%string; "x=lx"%string] in
  let long_edges :=
    if short_is_x then ["x=0"%string; "x=lx"%string] else ["y=0"%string; "y=ly"%string] in
  if Z.eqb case_id 1 then (short_edges ++ long_edges, [])
  else if Z.eqb case_id 7 then ([], short_edges ++ long_edges)
  else if Z.eqb case_id 4 then (long_edges, short_edges)
  else if Z.eqb case_id 5 then (short_edges, long_edges)
  else if Z.eqb case_id 2 then
    let disc := [nth 1 long_edges EmptyString] in
    (filter (fun e => negb (py_in e disc)) (short_edges ++ long_edges), disc)
  else if Z.eqb case_id 3 then
    let disc := [nth 1 long_edges EmptyString; nth 1 short_edges EmptyString] in
    (filter (fun e => negb (py_in e disc)) (short_edges ++ long_edges), disc)
  else if Z.eqb case_id 6 then
    let cont := [nth 0 long_edges EmptyString] in
    (cont, filter (fun e => negb (py_in e cont)) (short_edges ++ long_edges))
  else ([], []).

Definition edge_continuity_note_for_case (case_id : Z) (lx ly : Q) : string :=
  let '(cont, disc) := edge_sets case_id lx ly in
  let cont_s := match cont with [] => "yok"%string | _ => py_join ", "%string cont end in
  let disc_s := match disc with [] => "yok"%string | _ => py_join ", "%string disc end in
  String.append "Sürekli kenarlar: "%string
    (String.append cont_s
      (String.append " | Süreksiz kenarlar: "%string
        (String.append disc_s " (not: 2/3/6 için varsayım)"%string))).

(* ================================================================== *)
(** ** core.calc_K_and_As_from_M and core.choose_distribution_rebar *)

(** [(K_x1e5, ks, As)], with the chart [K_TABLE_ROWS] as a parameter;
    [None] is an exception raised by [ks_from_Kcalc]. *)
Definition calc_K_and_As_from_M (K_TABLE_ROWS : list KRow)
    (M_kNm_per_m d_m fck : Q) (steel : string) : option (Q * Q * Q) :=
  if Qle_bool (Qabs M_kNm_per_m) EPS12 then Some (0, 0, 0) else
  let b_mm := 1000 in
  let d_mm := d_m * 1000 in
  let M_Nmm := Qabs M_kNm_per_m * 1000000 in
  let K_x1e5 := (b_mm * (d_mm * d_mm) / M_Nmm) * 100 in
  ks <- ks_from_Kcalc K_TABLE_ROWS K_x1e5 fck steel ;;
  let As := (ks / 1000) * (M_Nmm / d_mm) in
  Some (K_x1e5, ks, As).

Definition choose_distribution_rebar (PHI_GRID : list Z) (S_GRID : list Q)
    (As_req_mm2_per_m : Q) : BarChoice :=
  let s_max := 300%Z in
  let s_min := 70%Z in
  let phi_min := 6%Z in
  choose_single_layer_rebar PHI_GRID S_GRID As_req_mm2_per_m s_max s_min phi_min.

(* ================================================================== *)
(** ** design.thickness_check_twoway and the thickness step of design.compute *)

Definition thickness_check_twoway (Lsn_short Lsn_long h_mm alpha_s : Q) : ThicknessCheck :=
  let m := if Qltb (1 # 100) Lsn_short then py_max (Lsn_long / Lsn_short) 1 else 1 in
  let factor := 1 - alpha_s / 4 in
  let denom := 15 + 20 / m in
  let h_min := py_max ((Lsn_short * 1000) / denom * factor) 80 in
  let ok := Qle_bool h_min h_mm in
  mkThicknessCheck h_min ok.

(** [compute], steps 1, 2 and 4: the thickness check it returns for the
    geometry [data] and the slab thickness [data.h_mm]. *)
Definition compute_thickness_check (data : Geometry) (h_mm : Q) : ThicknessCheck :=
  let '(Lsn_x, Lsn_y) := net_spans data in
  let L_short_net := py_min Lsn_x Lsn_y in
  let L_long_net := py_max Lsn_x Lsn_y in
  match slab_type data with
  | one_way => thickness_check_oneway L_long_net h_mm
  | two_way => thickness_check_twoway L_short_net L_long_net h_mm 0
  end.

(** Python's [int(x)] on a float: truncation toward zero. *)
Definition py_int (x : Q) : Z := Z.quot (Qnum x) (Zpos (Qden x)).

(** [compute], step 5: [(s_max_bottom, s_max_top)] in mm. *)
Definition spacing_limits (h_mm : Q) : Z * Z :=
  (py_int (py_min ((3 # 2) * h_mm) 200), py_int (py_min (2 * h_mm) 200)).

(* ================================================================== *)
(** ** design.compute_oneway: moments and required areas *)

(** A [Dict[str, float]] as an association list; [None] is [KeyError]. *)
Fixpoint str_dict_get (d : list (string * Q)) (k : string) : option Q :=
  match d with
  | [] => None
  | (k', v) :: r => if String.eqb k k' then Some v else str_dict_get r k
  end.

(** [d.get(k, default)] *)
Definition dict_get_or (d : list (string * Q)) (k : string) (default : Q) : Q :=
  match str_dict_get d k with Some v => v | None => default end.

(** [(M_pos, M_neg)] of [compute_oneway] for the coefficient dict [coefs]. *)
Definition oneway_moments (coefs : list (string * Q)) (pd L_long_net : Q) : Q * Q :=
  let base := pd * (L_long_net * L_long_net) in
  let M_pos := dict_get_or coefs "pos" (1 # 8) * base in
  let M_neg := dict_get_or coefs "neg" 0 * base in
  let M_neg := match str_dict_get coefs "neg_cont" with
               | Some c => c * base
               | None => M_neg
               end in
  (M_pos, M_neg).

(** The required areas of [compute_oneway] (mm2/m) and the distribution
    requirement it sets: [oneway_dist] is [Some (main_is_x, As)] when
    [dist_As_req_mm2_per_m] is set to [As] on [out_y] (if [main_is_x])
    or on [out_x]. *)
Record OnewayReq := mkOnewayReq {
  oneway_Asx_req : Q;
  oneway_Asy_req : Q;
  oneway_Asx_neg_req : Q;
  oneway_Asy_neg_req : Q;
  oneway_dist : option (bool * Q)
}.

Definition oneway_requirements (K_TABLE_ROWS : list KRow) (M_pos M_neg : Q) (x_is_long : bool)
    (d_m d_mm b_mm h_mm fck : Q) (steel : string) : option OnewayReq :=
  let '(Mx_pos, My_pos, Mx_neg, My_neg) :=
    if x_is_long then (M_pos, 0, M_neg, 0) else (0, M_pos, 0, M_neg) in
  let rho_min := rho_min_oneway steel in
  let Asmin_main := rho_min * b_mm * d_mm in
  rx <- calc_K_and_As_from_M K_TABLE_ROWS Mx_pos d_m fck steel ;;
  ry <- calc_K_and_As_from_M K_TABLE_ROWS My_pos d_m fck steel ;;
  rxn <- calc_K_and_As_from_M K_TABLE_ROWS Mx_neg d_m fck steel ;;
  ryn <- calc_K_and_As_from_M K_TABLE_ROWS My_neg d_m fck steel ;;
  let Asx_req := if Qltb 0 Mx_pos then py_max (snd rx) Asmin_main else 0 in
  let Asy_req := if Qltb 0 My_pos then py_max (snd ry) Asmin_main else 0 in
  let Asx_neg_req := if Qltb 0 Mx_neg then py_max (snd rxn) Asmin_main else 0 in
  let Asy_neg_req := if Qltb 0 My_neg then py_max (snd ryn) Asmin_main else 0 in
  (* main = out_x if out_x.M_pos_kNm_per_m > 0 else out_y; dist is the other *)
  let main_is_x := Qltb 0 Mx_pos in
  let main_As := if main_is_x then Asx_req else Asy_req in
  let dist :=
    if Qltb 0 main_As
    then Some (main_is_x, py_max (main_As * (20 # 100)) ((12 # 10000) * b_mm * h_mm))
    else None in
  Some (mkOnewayReq Asx_req Asy_req Asx_neg_req Asy_neg_req dist).

(* ================================================================== *)
(** * Properties *)

(** ** Python numeric helpers *)

Lemma Qltb_iff (a b : Q) : Qltb a b = true <-> a < b.
Proof.
  unfold Qltb. rewrite negb_true_iff.
  split; intro H.
  - apply Qnot_le_lt. intro H'. apply Qle_bool_iff in H'. congruence.
  - destruct (Qle_bool b a) eqn:E; [|reflexivity].
    apply Qle_bool_iff in E. exfalso. apply (Qlt_not_le a b); assumption.
Qed.

Lemma Qltb_false (a b : Q) : Qltb a b = false <-> b <= a.
Proof.
  unfold Qltb. rewrite negb_false_iff. apply Qle_bool_iff.
Qed.

Lemma py_max_spec (a b : Q) : py_max a b == Qmax a b.
Proof.
  unfold py_max. destruct (Qltb a b) eqn:E.
  - apply Qltb_iff in E. symmetry. apply Q.max_r. lra.
  - apply Qltb_false in E. symmetry. apply Q.max_l. lra.
Qed.

Lemma py_min_spec (a b : Q) : py_min a b == Qmin a b.
Proof.
  unfold py_min. destruct (Qltb b a) eqn:E.
  - apply Qltb_iff in E. symmetry. apply Q.min_r. lra.
  - apply Qltb_false in E. symmetry. apply Q.min_l. lra.
Qed.

Lemma py_max_ge_r (a b : Q) : b <= py_max a b.
Proof.
  unfold py_max. destruct (Qltb a b) eqn:E.
  - apply Qle_refl.
  - apply Qltb_false in E. exact E.
Qed.

Lemma Qdiv_pos (a b : Q) : 0 < a -> 0 < b -> 0 < a / b.
Proof.
  intros Ha Hb. unfold Qdiv. apply Qmult_lt_0_compat; [exact Ha|].
  apply Qinv_lt_0_compat. exact Hb.
Qed.

(* ------------------------------------------------------------------ *)
(** ** Net span and thickness *)

Lemma calculate_net_span_ge (L wl wr : Q) : 1 # 10 <= calculate_net_span L wl wr.
Proof. unfold calculate_net_span. apply py_max_ge_r. Qed.

(** C10: the net span is the gross span minus half the sum of the two beam
    widths (mm converted to m), floored at 0.1; 5.0 m between two 300 mm
    beams gives 4.7 m. *)
Theorem calculate_net_span_spec :
  (forall L_gross w_left w_right : Q,
     calculate_net_span L_gross w_left w_right
       == Qmax (L_gross - (w_left + w_right) / 2 / 1000) (1 # 10)) /\
  calculate_net_span 5 300 300 == 47 # 10.
Proof.
  split; [|reflexivity].
  intros L wl wr. unfold calculate_net_span.
  assert (Hd : (wl + wr) / 2000 == (wl + wr) / 2 / 1000) by field.
  rewrite py_max_spec, Hd. reflexivity.
Qed.

(** C9: the one-way thickness check demands h_min = max(Lsn x 1000 / 30, 80)
    mm and passes exactly when h >= h_min; a 6.0 m net span needs 200 mm. *)
Theorem thickness_check_oneway_spec :
  (forall Lsn h : Q,
     h_min_mm (thickness_check_oneway Lsn h) == Qmax (Lsn * 1000 / 30) 80 /\
     (ok (thickness_check_oneway Lsn h) = true
        <-> h_min_mm (thickness_check_oneway Lsn h) <= h)) /\
  (forall h : Q, h_min_mm (thickness_check_oneway 6 h) == 200).
Proof.
  split.
  - intros Lsn h. simpl. split; [|apply Qle_bool_iff].
    rewrite py_max_spec. unfold py_max.
    destruct (Qltb Lsn (1 # 10)) eqn:E.
    + apply Qltb_iff in E.
      assert (H1 : (1 # 10) * 1000 / 30 <= 80) by (unfold Qle; simpl; lia).
      assert (H2 : Lsn * 1000 / 30 <= 80).
      { apply Qle_shift_div_r; [reflexivity|]. lra. }
      rewrite (Q.max_r _ _ H1), (Q.max_r _ _ H2). reflexivity.
    + reflexivity.
  - intros h. simpl. reflexivity.
Qed.

(** C7: with the code's own net spans (always at least 0.1 m, so the 0.01
    guard never fires) the slab is one-way exactly when
    m = longer net span / shorter net span > 2, and two-way otherwise; in
    particular m = 2 is two-way. *)
Theorem slab_type_classification (data : Geometry) :
  let Lsn_x := fst (net_spans data) in
  let Lsn_y := snd (net_spans data) in
  let m := Qmax Lsn_x Lsn_y / Qmin Lsn_x Lsn_y in
  (slab_type data = one_way <-> 2 < m) /\
  (slab_type data = two_way <-> m <= 2).
Proof.
  intros Lsn_x Lsn_y m.
  assert (Hm : aspect_ratio data == m).
  { unfold aspect_ratio, m, Lsn_x, Lsn_y.
    destruct (net_spans data) as [a b] eqn:E. simpl.
    assert (Ha : 1 # 10 <= a).
    { unfold net_spans in E. injection E as <- _. apply calculate_net_span_ge. }
    assert (Hb : 1 # 10 <= b).
    { unfold net_spans in E. injection E as _ <-. apply calculate_net_span_ge. }
    assert (Hmin : 1 # 10 <= py_min a b).
    { unfold py_min. destruct (Qltb b a); assumption. }
    destruct (Qltb (1 # 100) (py_min a b)) eqn:G.
    - rewrite py_max_spec, py_min_spec. reflexivity.
    - apply Qltb_false in G. exfalso. lra. }
  unfold slab_type.
  destruct (Qltb 2 (aspect_ratio data)) eqn:E.
  - apply Qltb_iff in E. rewrite Hm in E.
    split; split; intro H; try reflexivity; try assumption; try discriminate.
    exfalso. lra.
  - apply Qltb_false in E. rewrite Hm in E.
    split; split; intro H; try reflexivity; try assumption; try discriminate.
    exfalso. lra.
Qed.

(* ------------------------------------------------------------------ *)
(** ** Area per unit width *)

Lemma as_cm2_per_m_eq (p s : Q) :
  ~ s == 0 -> as_cm2_per_m p s == (math_pi / 4 * (p * p)) * / s.
Proof. intro Hs. unfold as_cm2_per_m. field. exact Hs. Qed.

Lemma math_pi_pos : 0 < math_pi.
Proof. reflexivity. Qed.

(** C8: the provided area per unit width is strictly decreasing in the
    spacing and strictly increasing in the diameter (for the positive
    diameters and spacings of a catalog). *)
Theorem as_cm2_per_m_strict_mono (p s1 s2 p1 p2 s : Q) :
  0 < p -> 0 < s1 -> s1 < s2 -> 0 < p1 -> p1 < p2 -> 0 < s ->
  as_cm2_per_m p s2 < as_cm2_per_m p s1 /\ as_cm2_per_m p1 s < as_cm2_per_m p2 s.
Proof.
  intros Hp Hs1 Hs12 Hp1 Hp12 Hs.
  assert (Hpi := math_pi_pos).
  split.
  - rewrite !as_cm2_per_m_eq by (intro; lra).
    apply Qmult_lt_l.
    + apply Qmult_lt_0_compat; [apply Qdiv_pos; [exact Hpi|reflexivity]|nra].
    + apply (Qinv_lt_contravar s1 s2); lra.
  - rewrite !as_cm2_per_m_eq by (intro; lra).
    apply Qmult_lt_r; [apply Qinv_lt_0_compat; exact Hs|].
    apply Qmult_lt_l; [apply Qdiv_pos; [exact Hpi|reflexivity]|nra].
Qed.

(** Witness for C8: Ø8 at 10 cm against 15 cm, Ø8 against Ø10 at 10 cm. *)
Lemma as_cm2_per_m_strict_mono_witness :
  (0 < 8 /\ 0 < 10 /\ 10 < 15 /\ 0 < 8 /\ 8 < 10 /\ 0 < 10) /\
  as_cm2_per_m 8 15 < as_cm2_per_m 8 10 /\ as_cm2_per_m 8 10 < as_cm2_per_m 10 10.
Proof.
  split; [repeat split; reflexivity|].
  apply (as_cm2_per_m_strict_mono 8 10 15 8 10 10); reflexivity.
Defined.

(* ------------------------------------------------------------------ *)
(** ** Folds of the selection loops *)

Lemma fold_left_invariant {A B : Type} (P : A -> Prop) (f : A -> B -> A)
    (l : list B) (init : A) :
  P init -> (forall a b, In b l -> P a -> P (f a b)) -> P (fold_left f l init).
Proof.
  revert init. induction l as [|b l IH]; intros init Hinit Hstep; simpl.
  - exact Hinit.
  - apply IH.
    + apply Hstep; [left; reflexivity | exact Hinit].
    + intros a b' Hin Ha. apply Hstep; [right; exact Hin | exact Ha].
Qed.

Lemma keep_better_cases {A : Type} (r : A -> Q) (best : option A) (cand : A) :
  keep_better r best cand = best \/ keep_better r best cand = Some cand.
Proof.
  destruct best as [b|]; simpl; [|right; reflexivity].
  destruct (Qltb (r cand) (r b)); [right|left]; reflexivity.
Qed.

Lemma half_half_layers_equal (PHI_GRID : list Z) (S_GRID : list Q)
    (As_req : Q) (s_max s_min phi_min : Z) :
  straight (choose_main_rebar_half_half_same_phi PHI_GRID S_GRID As_req s_max s_min phi_min)
  = pilye (choose_main_rebar_half_half_same_phi PHI_GRID S_GRID As_req s_max s_min phi_min).
Proof.
  unfold choose_main_rebar_half_half_same_phi.
  destruct (Qle_bool As_req EPS12); [reflexivity|].
  set (P := fun (o : option MainRebarLayout) =>
              forall l, o = Some l -> straight l = pilye l).
  match goal with
  | |- context [fold_left ?f PHI_GRID None] =>
      assert (H : P (fold_left f PHI_GRID None))
  end.
  - apply fold_left_invariant.
    + intros l H. discriminate.
    + intros best p _ Hbest.
      destruct (Z.ltb p phi_min); [exact Hbest|].
      destruct (best_spacing_for_phi PHI_GRID S_GRID (As_req / 2) p s_max s_min)
        as [st|]; [|exact Hbest].
      destruct (keep_better_cases ml_ratio best
                  (mkMainRebarLayout st st (As_prov_mm2_per_m st + As_prov_mm2_per_m st)
                     As_req ((As_prov_mm2_per_m st + As_prov_mm2_per_m st) / As_req)))
        as [E|E]; rewrite E; [exact Hbest|].
      intros l Hl. injection Hl as <-. reflexivity.
  - destruct (fold_left _ PHI_GRID None) as [l|]; [|reflexivity].
    apply H. reflexivity.
Qed.

(** C4: the straight and the bent (pilye) layer of the half-half layout are
    the same [BarChoice]: same diameter, spacing and provided area. *)
Theorem half_half_straight_eq_pilye (PHI_GRID : list Z) (S_GRID : list Q)
    (As_req : Q) (s_max s_min phi_min : Z) :
  let layout := choose_main_rebar_half_half_same_phi PHI_GRID S_GRID As_req s_max s_min phi_min in
  phi (straight layout) = phi (pilye layout) /\
  s_cm (straight layout) = s_cm (pilye layout) /\
  As_prov_mm2_per_m (straight layout) = As_prov_mm2_per_m (pilye layout) /\
  straight layout = pilye layout.
Proof.
  intros layout.
  assert (E : straight layout = pilye layout) by apply half_half_layers_equal.
  rewrite E. repeat split.
Qed.

(** C5: the two layers of the half-half layout always have equal diameter. *)
Theorem half_half_same_phi (PHI_GRID : list Z) (S_GRID : list Q)
    (As_req : Q) (s_max s_min phi_min : Z) :
  phi (straight (choose_main_rebar_half_half_same_phi PHI_GRID S_GRID As_req s_max s_min phi_min))
  = phi (pilye (choose_main_rebar_half_half_same_phi PHI_GRID S_GRID As_req s_max s_min phi_min)).
Proof. rewrite half_half_layers_equal. reflexivity. Qed.

(* ------------------------------------------------------------------ *)
(** ** Two-way minimum bottom reinforcement *)

Lemma rho_min_oneway_ge (steel : string) : 2 # 1000 <= rho_min_oneway steel.
Proof.
  unfold rho_min_oneway. destruct (py_contains _ _); unfold Qle; simpl; lia.
Qed.

(** C1 fails: with [As_x] = 200 and [As_y] = 100 mm2/m from the moments,
    d = 100 mm and S420 steel, the pre-clamp sum 300 is below
    0.0035 x 1000 x 100 = 350, yet no direction is rescaled: the code
    returns the clamped areas (200, 200), and the x area is not the
    rescaled 200 x 350 / 300. *)
Lemma twoway_combined_min_counterexample :
  let pre_sum := 200 + 100 in
  let As_min_total := (35 # 10000) * 1000 * 100 in
  pre_sum < As_min_total /\
  fst (twoway_bottom_requirements 200 100 "S420" 1000 100) == 200 /\
  snd (twoway_bottom_requirements 200 100 "S420" 1000 100) == 200 /\
  ~ fst (twoway_bottom_requirements 200 100 "S420" 1000 100)
      == 200 * (As_min_total / pre_sum).
Proof.
  split; [reflexivity|]. split; [|split].
  - vm_compute. reflexivity.
  - vm_compute. reflexivity.
  - vm_compute. discriminate.
Qed.

(** C1 as amended: the combined minimum is tested on the post-clamp sum
    (above 1e-12 only); since rho_min >= 0.002 that sum is at least
    0.004 b d, so for positive b and d no rescaling happens and each
    direction requires exactly max(As_M, rho_min b d). *)
Theorem twoway_bottom_requirements_no_rescale (Asx_pos_M Asy_pos_M : Q)
    (steel : string) (b_mm d_mm : Q) :
  0 < b_mm -> 0 < d_mm ->
  twoway_bottom_requirements Asx_pos_M Asy_pos_M steel b_mm d_mm
  = (py_max Asx_pos_M (rho_min_oneway steel * b_mm * d_mm),
     py_max Asy_pos_M (rho_min_oneway steel * b_mm * d_mm)).
Proof.
  intros Hb Hd. unfold twoway_bottom_requirements.
  set (rho := rho_min_oneway steel).
  assert (Hrho : 2 # 1000 <= rho) by apply rho_min_oneway_ge.
  set (mn := rho * b_mm * d_mm).
  assert (Hbd : 0 < b_mm * d_mm) by (apply Qmult_lt_0_compat; assumption).
  assert (Hx := py_max_ge_r Asx_pos_M mn).
  assert (Hy := py_max_ge_r Asy_pos_M mn).
  assert (Hmn : (4 # 1000) * (b_mm * d_mm) <= 2 * mn).
  { unfold mn. rewrite <- Qmult_assoc.
    assert (H2 : (4 # 1000) * (b_mm * d_mm) == 2 * ((2 # 1000) * (b_mm * d_mm))) by ring.
    rewrite H2. apply Qmult_le_l; [reflexivity|].
    apply Qmult_le_r; assumption. }
  assert (Hlt : (35 # 10000) * b_mm * d_mm <= py_max Asx_pos_M mn + py_max Asy_pos_M mn).
  { rewrite <- Qmult_assoc. lra. }
  destruct (Qltb (py_max Asx_pos_M mn + py_max Asy_pos_M mn) ((35 # 10000) * b_mm * d_mm)) eqn:E.
  - apply Qltb_iff in E. exfalso. lra.
  - reflexivity.
Qed.

(** Witness for C1: b = 1000 mm, d = 100 mm, moment areas 200 and 100. *)
Lemma twoway_bottom_requirements_no_rescale_witness :
  (0 < 1000 /\ 0 < 100) /\
  twoway_bottom_requirements 200 100 "S420" 1000 100
  = (py_max 200 (rho_min_oneway "S420" * 1000 * 100),
     py_max 100 (rho_min_oneway "S420" * 1000 * 100)).
Proof.
  split; [split; reflexivity|].
  apply twoway_bottom_requirements_no_rescale; reflexivity.
Defined.

(* ------------------------------------------------------------------ *)
(** ** Single-layer bar selection *)

Lemma index_of_spec (x : Z) (l : list Z) :
  In x l -> (index_of x l < List.length l)%nat /\ nth (index_of x l) l 0%Z = x.
Proof.
  induction l as [|y l IH]; simpl; [contradiction|].
  intros [<-|Hin].
  - rewrite Z.eqb_refl. split; [lia | reflexivity].
  - destruct (Z.eqb x y) eqn:E.
    + apply Z.eqb_eq in E. subst. split; [lia | reflexivity].
    + destruct (IH Hin) as [H1 H2]. split; [lia | exact H2].
Qed.

Lemma in_combine_seq {A : Type} (d : A) (l : list A) (k i : nat) (x : A) :
  In (i, x) (combine (seq k (List.length l)) l) ->
  (k <= i)%nat /\ (i - k < List.length l)%nat /\ nth (i - k) l d = x.
Proof.
  revert k. induction l as [|a l IH]; intros k; simpl; [contradiction|].
  intros [E|Hin].
  - injection E as <- <-. rewrite Nat.sub_diag. split; [lia|]. split; [lia|reflexivity].
  - destruct (IH (S k) Hin) as [H1 [H2 H3]].
    replace (i - k)%nat with (S (i - S k)) by lia.
    split; [lia|]. split; [lia | exact H3].
Qed.

Lemma in_combine_seq_nth {A : Type} (d : A) (l : list A) (i : nat) :
  (i < List.length l)%nat -> In (i, nth i l d) (combine (seq 0 (List.length l)) l).
Proof.
  intro Hi.
  assert (G : forall k, In (k + i, nth i l d)%nat (combine (seq k (List.length l)) l)).
  { revert i Hi. induction l as [|a l IH]; intros i Hi k; simpl in *; [lia|].
    destruct i as [|i].
    - left. rewrite Nat.add_0_r. reflexivity.
    - right. replace (k + S i)%nat with (S k + i)%nat by lia. apply IH. lia. }
  apply (G 0%nat).
Qed.

Lemma AS_GRID_at (PHI_GRID : list Z) (S_GRID : list Q) (si : nat) (p : Z) :
  (si < List.length S_GRID)%nat -> In p PHI_GRID ->
  nth (index_of p PHI_GRID) (nth si (AS_GRID PHI_GRID S_GRID) []) 0
  = as_cm2_per_m (inject_Z p) (nth si S_GRID 0).
Proof.
  intros Hsi Hp. unfold AS_GRID.
  destruct (index_of_spec p PHI_GRID Hp) as [Hj Hnth].
  set (g := fun s => map (fun p0 => as_cm2_per_m (inject_Z p0) s) PHI_GRID).
  rewrite (nth_indep _ [] (g 0)) by (rewrite length_map; exact Hsi).
  rewrite map_nth. unfold g.
  rewrite (nth_indep _ 0 (as_cm2_per_m (inject_Z 0%Z) (nth si S_GRID 0)))
    by (rewrite length_map; exact Hj).
  rewrite (map_nth (fun p0 => as_cm2_per_m (inject_Z p0) (nth si S_GRID 0))).
  rewrite Hnth. reflexivity.
Qed.

(** What a choice returned by [best_spacing_for_phi] satisfies. *)
Lemma best_spacing_for_phi_sound (PHI_GRID : list Z) (S_GRID : list Q)
    (As_req : Q) (p : Z) (s_max_mm s_min_mm : Z) (c : BarChoice) :
  EPS12 < As_req ->
  best_spacing_for_phi PHI_GRID S_GRID As_req p s_max_mm s_min_mm = Some c ->
  phi c = p /\ In p PHI_GRID /\ In (s_cm c) S_GRID /\
  inject_Z s_min_mm / 10 <= s_cm c /\ s_cm c <= inject_Z s_max_mm / 10 /\
  As_prov_cm2_per_m c = as_cm2_per_m (inject_Z p) (s_cm c) /\
  As_prov_mm2_per_m c = As_prov_cm2_per_m c * 100 /\
  ratio c = As_prov_cm2_per_m c / (As_req / 100) /\
  As_req / 100 <= As_prov_cm2_per_m c + EPS12.
Proof.
  intros Hreq. unfold best_spacing_for_phi.
  destruct (Qle_bool As_req EPS12) eqn:E1.
  { apply Qle_bool_iff in E1. exfalso. lra. }
  destruct (existsb (Z.eqb p) PHI_GRID) eqn:E2; simpl; [|discriminate].
  assert (Hp : In p PHI_GRID).
  { apply existsb_exists in E2. destruct E2 as [y [Hy Ey]].
    apply Z.eqb_eq in Ey. subst. exact Hy. }
  revert c.
  apply (fold_left_invariant
           (fun o => forall c, o = Some c ->
              phi c = p /\ In p PHI_GRID /\ In (s_cm c) S_GRID /\
              inject_Z s_min_mm / 10 <= s_cm c /\ s_cm c <= inject_Z s_max_mm / 10 /\
              As_prov_cm2_per_m c = as_cm2_per_m (inject_Z p) (s_cm c) /\
              As_prov_mm2_per_m c = As_prov_cm2_per_m c * 100 /\
              ratio c = As_prov_cm2_per_m c / (As_req / 100) /\
              As_req / 100 <= As_prov_cm2_per_m c + EPS12)).
  - intros c H. discriminate.
  - intros best [si s] Hin Hbest.
    destruct (in_combine_seq 0 S_GRID 0 si s Hin) as [_ [Hsi Hnth]].
    rewrite Nat.sub_0_r in Hsi, Hnth.
    destruct (Qltb s (inject_Z s_min_mm / 10) || Qltb (inject_Z s_max_mm / 10) s) eqn:E3;
      [exact Hbest|].
    apply orb_false_iff in E3. destruct E3 as [E3 E4].
    apply Qltb_false in E3. apply Qltb_false in E4.
    rewrite (AS_GRID_at PHI_GRID S_GRID si p Hsi Hp), Hnth.
    destruct (Qltb (as_cm2_per_m (inject_Z p) s + EPS12) (As_req / 100)) eqn:E5;
      [exact Hbest|].
    apply Qltb_false in E5.
    match goal with
    | |- context [keep_better ratio best ?cand] =>
        destruct (keep_better_cases ratio best cand) as [E|E]; rewrite E; [exact Hbest|]
    end.
    intros c Hc. injection Hc as <-. simpl.
    repeat split; try assumption; try reflexivity.
    apply (in_combine_r _ _ si s Hin).
Qed.

Lemma keep_better_not_none {A : Type} (r : A -> Q) (best : option A) (cand : A) :
  keep_better r best cand <> None.
Proof. destruct (keep_better_cases r best cand) as [E|E]; rewrite E; [|discriminate].
  destruct best; [discriminate|]. simpl in E. discriminate.
Qed.

Lemma fold_left_not_none {X Y : Type} (f : option X -> Y -> option X) (l : list Y)
    (init : option X) :
  (forall a y, In y l -> a <> None -> f a y <> None) ->
  (exists y, In y l /\ forall a, f a y <> None) ->
  fold_left f l init <> None.
Proof.
  revert init. induction l as [|y l IH]; intros init Hpres [w [Hw Hf]]; simpl;
    [contradiction|].
  destruct Hw as [<-|Hw].
  - apply (fold_left_invariant (fun o => o <> None)).
    + apply Hf.
    + intros a b Hb Ha. apply Hpres; [right; exact Hb | exact Ha].
  - apply IH.
    + intros a b Hb Ha. apply Hpres; [right; exact Hb | exact Ha].
    + exists w. split; assumption.
Qed.

(** An admitted pair makes [best_spacing_for_phi] succeed at its diameter. *)
Lemma best_spacing_for_phi_complete (PHI_GRID : list Z) (S_GRID : list Q)
    (As_req : Q) (s_max_mm s_min_mm phi_min : Z) (p : Z) (s : Q) :
  EPS12 < As_req ->
  admitted_pair PHI_GRID S_GRID As_req s_max_mm s_min_mm phi_min p s ->
  best_spacing_for_phi PHI_GRID S_GRID As_req p s_max_mm s_min_mm <> None.
Proof.
  intros Hreq [Hp [_ [Hs [Hlo [Hhi HA]]]]].
  unfold best_spacing_for_phi.
  destruct (Qle_bool As_req EPS12) eqn:E1.
  { apply Qle_bool_iff in E1. exfalso. lra. }
  assert (E2 : existsb (Z.eqb p) PHI_GRID = true).
  { apply existsb_exists. exists p. split; [exact Hp | apply Z.eqb_refl]. }
  rewrite E2. simpl.
  apply fold_left_not_none.
  - intros best [si s'] _ Hb.
    destruct (Qltb s' (inject_Z s_min_mm / 10) || Qltb (inject_Z s_max_mm / 10) s');
      [exact Hb|].
    destruct (Qltb _ (As_req / 100)); [exact Hb|].
    apply keep_better_not_none.
  - destruct (In_nth S_GRID s 0 Hs) as [si [Hsi Hnth]].
    exists (si, s). split.
    + rewrite <- Hnth. apply in_combine_seq_nth. exact Hsi.
    + intros best.
      assert (E3 : Qltb s (inject_Z s_min_mm / 10) || Qltb (inject_Z s_max_mm / 10) s = false).
      { apply orb_false_iff. split; apply Qltb_false; assumption. }
      rewrite E3.
      rewrite (AS_GRID_at PHI_GRID S_GRID si p Hsi Hp), Hnth.
      assert (E5 : Qltb (as_cm2_per_m (inject_Z p) s + EPS12) (As_req / 100) = false).
      { apply Qltb_false. exact HA. }
      rewrite E5. apply keep_better_not_none.
Qed.

(** C2 as amended: above the 1e-12 zero threshold, [choose_single_layer_rebar]
    returns a catalog pair admitted within the 1e-12 cm2/m tolerance (so the
    provided area is at least the requirement minus the tolerance) whenever
    such a pair exists, and the zero sentinel [BarChoice(0, 0, 0, 0, 0)]
    otherwise; it never fails. *)
Theorem choose_single_layer_rebar_spec (PHI_GRID : list Z) (S_GRID : list Q)
    (As_req : Q) (s_max_mm s_min_mm phi_min : Z) :
  EPS12 < As_req ->
  ((exists p s, admitted_pair PHI_GRID S_GRID As_req s_max_mm s_min_mm phi_min p s) ->
   let c := choose_single_layer_rebar PHI_GRID S_GRID As_req s_max_mm s_min_mm phi_min in
   admitted_pair PHI_GRID S_GRID As_req s_max_mm s_min_mm phi_min (phi c) (s_cm c) /\
   As_prov_cm2_per_m c = as_cm2_per_m (inject_Z (phi c)) (s_cm c) /\
   As_prov_mm2_per_m c = As_prov_cm2_per_m c * 100 /\
   ratio c = As_prov_cm2_per_m c / (As_req / 100)) /\
  ((~ exists p s, admitted_pair PHI_GRID S_GRID As_req s_max_mm s_min_mm phi_min p s) ->
   choose_single_layer_rebar PHI_GRID S_GRID As_req s_max_mm s_min_mm phi_min = zero_choice).
Proof.
  intros Hreq. unfold choose_single_layer_rebar.
  destruct (Qle_bool As_req EPS12) eqn:E1.
  { apply Qle_bool_iff in E1. exfalso. lra. }
  match goal with
  | |- context [fold_left ?f PHI_GRID None] => set (F := f)
  end.
  assert (Hsound : forall c, fold_left F PHI_GRID None = Some c ->
     admitted_pair PHI_GRID S_GRID As_req s_max_mm s_min_mm phi_min (phi c) (s_cm c) /\
     As_prov_cm2_per_m c = as_cm2_per_m (inject_Z (phi c)) (s_cm c) /\
     As_prov_mm2_per_m c = As_prov_cm2_per_m c * 100 /\
     ratio c = As_prov_cm2_per_m c / (As_req / 100)).
  { apply fold_left_invariant; [intros c H; discriminate|].
    intros best p Hp Hbest. unfold F.
    destruct (Z.ltb p phi_min) eqn:E2; [exact Hbest|].
    apply Z.ltb_ge in E2.
    destruct (best_spacing_for_phi PHI_GRID S_GRID As_req p s_max_mm s_min_mm)
      as [cand|] eqn:E3; [|exact Hbest].
    destruct (keep_better_cases ratio best cand) as [E|E]; rewrite E; [exact Hbest|].
    intros c Hc. injection Hc as <-.
    destruct (best_spacing_for_phi_sound _ _ _ _ _ _ _ Hreq E3)
      as [Hphi [Hin [Hs [Hlo [Hhi [Has [Hmm [Hr Htol]]]]]]]].
    rewrite Hphi. repeat split; try assumption.
    rewrite <- Has. exact Htol. }
  split.
  - intros [p [s Hadm]].
    destruct (fold_left F PHI_GRID None) as [c|] eqn:Ef.
    + apply Hsound. reflexivity.
    + exfalso. revert Ef. apply fold_left_not_none.
      * intros best p' _ Hb. unfold F.
        destruct (Z.ltb p' phi_min); [exact Hb|].
        destruct (best_spacing_for_phi _ _ _ _ _ _); [apply keep_better_not_none | exact Hb].
      * exists p. split; [destruct Hadm as [Hp _]; exact Hp|].
        intros best. unfold F.
        destruct Hadm as [Hp [Hmin Hrest]] eqn:Hadm'.
        assert (E2 : Z.ltb p phi_min = false) by (apply Z.ltb_ge; exact Hmin).
        rewrite E2.
        destruct (best_spacing_for_phi PHI_GRID S_GRID As_req p s_max_mm s_min_mm) eqn:E3;
          [apply keep_better_not_none|].
        exfalso. revert E3. apply (best_spacing_for_phi_complete _ _ _ _ _ phi_min p s Hreq).
        exact Hadm.
  - intros Hno.
    assert (Hnone : fold_left F PHI_GRID None = None).
    { apply (fold_left_invariant (fun o => o = None)); [reflexivity|].
      intros best p Hp Hb. subst best. unfold F.
      destruct (Z.ltb p phi_min) eqn:E2; [reflexivity|].
      apply Z.ltb_ge in E2.
      destruct (best_spacing_for_phi PHI_GRID S_GRID As_req p s_max_mm s_min_mm)
        as [cand|] eqn:E3; [|reflexivity].
      exfalso. apply Hno.
      destruct (best_spacing_for_phi_sound _ _ _ _ _ _ _ Hreq E3)
        as [Hphi [Hin [Hs [Hlo [Hhi [Has [Hmm [Hr Htol]]]]]]]].
      exists p, (s_cm cand). repeat split; try assumption.
      rewrite <- Has. exact Htol. }
    rewrite Hnone. reflexivity.
Qed.

(** Witness for C2: the sample catalog, 400 mm2/m, spacings 70..200 mm, Ø >= 8. *)
Lemma choose_single_layer_rebar_spec_witness :
  EPS12 < 400 /\
  ((exists p s, admitted_pair PHI_GRID_sample S_GRID_sample 400 200 70 8 p s) ->
   let c := choose_single_layer_rebar PHI_GRID_sample S_GRID_sample 400 200 70 8 in
   admitted_pair PHI_GRID_sample S_GRID_sample 400 200 70 8 (phi c) (s_cm c) /\
   As_prov_cm2_per_m c = as_cm2_per_m (inject_Z (phi c)) (s_cm c) /\
   As_prov_mm2_per_m c = As_prov_cm2_per_m c * 100 /\
   ratio c = As_prov_cm2_per_m c / (400 / 100)) /\
  ((~ exists p s, admitted_pair PHI_GRID_sample S_GRID_sample 400 200 70 8 p s) ->
   choose_single_layer_rebar PHI_GRID_sample S_GRID_sample 400 200 70 8 = zero_choice).
Proof.
  split; [reflexivity|].
  apply choose_single_layer_rebar_spec. reflexivity.
Defined.

(** C2 fails: with the requirement 1e-13 cm2/m above the area of Ø10 at
    19 cm, Ø12 at 19 cm (in range) provides more than required, yet the
    selection returns a choice with ratio below 1.0 that provides less
    than required, because the tolerance admits Ø10/19. *)
Lemma choose_single_layer_rebar_underprovides :
  let req := as_cm2_per_m 10 19 * 100 + (1 # 100000000000) in
  let c := choose_single_layer_rebar PHI_GRID_sample S_GRID_sample req 200 70 8 in
  EPS12 < req /\
  In 12%Z PHI_GRID_sample /\ In 19 S_GRID_sample /\
  inject_Z 70 / 10 <= 19 /\ 19 <= inject_Z 200 / 10 /\
  req / 100 <= as_cm2_per_m 12 19 /\
  phi c = 10%Z /\ s_cm c = 19 /\
  ratio c < 1 /\ As_prov_mm2_per_m c < req.
Proof.
  intros req c.
  split; [vm_compute; reflexivity|].
  split; [simpl; tauto|].
  split; [apply in_map_iff; exists 19%nat; split; [reflexivity | apply in_seq; lia]|].
  split; [apply Qle_bool_iff; reflexivity|]. split; [apply Qle_bool_iff; reflexivity|].
  split; [apply Qle_bool_iff; vm_compute; reflexivity|].
  split; [vm_compute; reflexivity|]. split; [vm_compute; reflexivity|].
  split; vm_compute; reflexivity.
Qed.

(* ------------------------------------------------------------------ *)
(** ** Piecewise interpolation *)

Lemma dict_get_key (points : list (Q * Q)) (k k' v : Q) :
  ForallOrdPairs (fun a b => ~ fst a == fst b) points ->
  In (k, v) points -> k' == k -> dict_get points k' = Some v.
Proof.
  induction points as [|[k0 v0] r IH]; intros Hd Hin Hk; [contradiction|].
  inversion Hd as [|a l Hhd Htl]; subst. simpl.
  destruct Hin as [E|Hin].
  - injection E as -> ->. replace (Qeq_bool k' k) with true; [reflexivity|].
    symmetry. apply Qeq_bool_iff. exact Hk.
  - destruct (Qeq_bool k' k0) eqn:E.
    + apply Qeq_bool_iff in E. exfalso.
      rewrite Forall_forall in Hhd. apply (Hhd (k, v) Hin). simpl.
      rewrite <- E. exact Hk.
    + apply IH; assumption.
Qed.

Lemma dict_get_in_keys (points : list (Q * Q)) (k : Q) :
  In k (map fst points) -> exists v, dict_get points k = Some v.
Proof.
  induction points as [|[k0 v0] r IH]; simpl; [contradiction|].
  intros Hin. destruct (Qeq_bool k k0) eqn:E; [eexists; reflexivity|].
  destruct Hin as [<-|Hin].
  - rewrite Qeq_bool_refl in E. discriminate.
  - apply IH. exact Hin.
Qed.

Lemma sorted_keys (points : list (Q * Q)) :
  StronglySorted Qle (QSort.sort (map fst points)) /\
  (forall k, In k (QSort.sort (map fst points)) <-> In k (map fst points)).
Proof.
  split.
  - assert (H : StronglySorted (fun x y => is_true (QLeBool.leb x y)) (QSort.sort (map fst points))).
    { apply QSort.StronglySorted_sort.
      intros x y z Hxy Hyz. unfold is_true, QLeBool.leb in *.
      rewrite Qle_bool_iff in *. apply (Qle_trans _ y); assumption. }
    induction H as [|a l Hl IH Hf]; constructor; [exact IH|].
    rewrite Forall_forall in *. intros x Hx. apply Qle_bool_iff. apply Hf. exact Hx.
  - intros k. split; apply Permutation_in;
      [symmetry|]; apply QSort.Permuted_sort.
Qed.

Lemma last_cons_default {A : Type} (l : list A) (a b : A) :
  last (b :: l) a = last l b.
Proof.
  revert a b. induction l as [|c l IH]; intros a b; [reflexivity|].
  change (last (b :: c :: l) a) with (last (c :: l) a).
  rewrite (IH a c), (IH b c). reflexivity.
Qed.

Lemma sorted_last_max (l : list Q) (a : Q) :
  StronglySorted Qle (a :: l) -> forall k, In k (a :: l) -> k <= last l a.
Proof.
  revert a. induction l as [|b l IH]; intros a Hs k Hk.
  - destruct Hk as [<-|[]]. apply Qle_refl.
  - inversion Hs as [|a' l' Hs' Hf]; subst.
    rewrite last_cons_default.
    destruct Hk as [<-|Hk].
    + apply (Qle_trans _ b).
      * rewrite Forall_forall in Hf. apply Hf. left. reflexivity.
      * apply IH; [exact Hs' | left; reflexivity].
    + apply IH; assumption.
Qed.

Lemma next_bracket_hit (prev : Q) (rest : list Q) (k : Q) :
  StronglySorted Qle (prev :: rest) -> In k rest -> prev < k ->
  exists x1 x2, next_bracket (fun c => Qle_bool k c) prev rest = Some (x1, x2) /\
    x2 == k /\ x1 < k /\ In x1 (prev :: rest).
Proof.
  revert prev. induction rest as [|c r IH]; intros prev Hs Hin Hlt; [contradiction|].
  inversion Hs as [|a l Hs' Hf]; subst. simpl.
  destruct (Qle_bool k c) eqn:E.
  - apply Qle_bool_iff in E. exists prev, c. split; [reflexivity|].
    split; [|split; [exact Hlt | left; reflexivity]].
    destruct Hin as [<-|Hin]; [reflexivity|].
    inversion Hs' as [|a' l' Hs'' Hf']; subst.
    rewrite Forall_forall in Hf'. specialize (Hf' k Hin). lra.
  - assert (Hck : c < k).
    { apply Qnot_le_lt. intro H. apply Qle_bool_iff in H. congruence. }
    destruct Hin as [<-|Hin]; [exfalso; lra|].
    destruct (IH c Hs' Hin Hck) as [x1 [x2 [Hb [Hx2 [Hx1 Hin1]]]]].
    exists x1, x2. split; [exact Hb|]. split; [exact Hx2|]. split; [exact Hx1|].
    right. exact Hin1.
Qed.

Lemma last_in_cons {A : Type} (l : list A) (a : A) : In (last l a) (a :: l).
Proof.
  revert a. induction l as [|b l IH]; intros a; [left; reflexivity|].
  rewrite last_cons_default. right. apply IH.
Qed.

(** C6: [interp_piecewise] over a table with distinct breakpoints reproduces
    the tabulated coefficient at every breakpoint, and clamps flat to the
    value at the smallest (largest) breakpoint below (above) the table. *)
Theorem interp_piecewise_spec (points : list (Q * Q)) :
  ForallOrdPairs (fun a b => ~ fst a == fst b) points ->
  (forall k v, In (k, v) points ->
     exists w, interp_piecewise points k = Some w /\ w == v) /\
  (forall kmin vmin x, In (kmin, vmin) points ->
     (forall k, In k (map fst points) -> kmin <= k) ->
     x <= kmin -> interp_piecewise points x = Some vmin) /\
  (forall kmax vmax x, In (kmax, vmax) points ->
     (forall k, In k (map fst points) -> k <= kmax) ->
     kmax <= x -> interp_piecewise points x = Some vmax).
Proof.
  intros Hd. destruct (sorted_keys points) as [Hs Hperm].
  unfold interp_piecewise.
  set (xs := QSort.sort (map fst points)) in *.
  assert (Hkey : forall k v, In (k, v) points -> In k xs).
  { intros k v Hin. apply Hperm. apply (in_map fst _ (k, v) Hin). }
  destruct xs as [|x0 rest].
  { split; [|split]; intros k v; [intros Hin | intros x Hin | intros x Hin];
      destruct (Hkey k v Hin). }
  assert (Hx0 : In x0 (map fst points)) by (apply Hperm; left; reflexivity).
  assert (Hlast : In (last rest x0) (map fst points)) by (apply Hperm; apply last_in_cons).
  assert (Hmin0 : forall k, In k (map fst points) -> x0 <= k).
  { intros k Hk. apply Hperm in Hk. destruct Hk as [<-|Hk]; [apply Qle_refl|].
    inversion Hs as [|a l Hs' Hf]; subst. rewrite Forall_forall in Hf. apply Hf. exact Hk. }
  assert (Hmax : forall k, In k (map fst points) -> k <= last rest x0).
  { intros k Hk. apply sorted_last_max; [exact Hs | apply Hperm; exact Hk]. }
  split; [|split].
  - intros k v Hin.
    assert (Hk : In k (map fst points)) by apply (in_map fst _ (k, v) Hin).
    destruct (Qle_bool k x0) eqn:E1.
    + apply Qle_bool_iff in E1. exists v. split; [|apply Qeq_refl].
      apply (dict_get_key _ k); [exact Hd | exact Hin|].
      specialize (Hmin0 k Hk). lra.
    + assert (Hx0k : x0 < k).
      { apply Qnot_le_lt. intro H. apply Qle_bool_iff in H. congruence. }
      destruct (Qle_bool (last rest x0) k) eqn:E2.
      * apply Qle_bool_iff in E2. exists v. split; [|apply Qeq_refl].
        apply (dict_get_key _ k); [exact Hd | exact Hin|].
        specialize (Hmax k Hk). lra.
      * assert (Hin' : In k rest).
        { apply Hperm in Hk. destruct Hk as [E|Hk]; [subst; exfalso; lra | exact Hk]. }
        destruct (next_bracket_hit x0 rest k Hs Hin' Hx0k) as [x1 [x2 [Hb [Hx2 [Hx1 Hin1]]]]].
        rewrite Hb. simpl.
        assert (Hk1 : In x1 (map fst points)) by (apply Hperm; exact Hin1).
        destruct (dict_get_in_keys points x1 Hk1) as [a Ha].
        rewrite Ha. simpl.
        rewrite (dict_get_key points k x2 v Hd Hin Hx2). simpl.
        exists (lerp a v ((k - x1) / (x2 - x1))). split; [reflexivity|].
        unfold lerp. rewrite Hx2. field. intro H. lra.
  - intros kmin vmin x Hin Hkmin Hx.
    assert (Hk : In kmin (map fst points)) by apply (in_map fst _ (kmin, vmin) Hin).
    assert (Heq : x0 == kmin).
    { specialize (Hmin0 kmin Hk). specialize (Hkmin x0 Hx0). lra. }
    assert (E1 : Qle_bool x x0 = true) by (apply Qle_bool_iff; lra).
    rewrite E1. apply (dict_get_key _ kmin); assumption.
  - intros kmax vmax x Hin Hkmax Hx.
    assert (Hk : In kmax (map fst points)) by apply (in_map fst _ (kmax, vmax) Hin).
    assert (Heq : last rest x0 == kmax).
    { specialize (Hmax kmax Hk). specialize (Hkmax _ Hlast). lra. }
    destruct (Qle_bool x x0) eqn:E1.
    + apply Qle_bool_iff in E1. apply (dict_get_key _ kmax); [exact Hd | exact Hin|].
      specialize (Hkmax x0 Hx0). specialize (Hmin0 kmax Hk). lra.
    + assert (E2 : Qle_bool (last rest x0) x = true) by (apply Qle_bool_iff; lra).
      rewrite E2. apply (dict_get_key _ kmax); assumption.
Qed.

(** Witness for C6: a three-point table over m = 1.0, 1.5, 2.0. *)
Lemma interp_piecewise_spec_witness :
  ForallOrdPairs (fun a b => ~ fst a == fst b) [(2, 9 # 100); (1, 5 # 100); (3 # 2, 7 # 100)] /\
  interp_piecewise [(2, 9 # 100); (1, 5 # 100); (3 # 2, 7 # 100)] (3 # 4) = Some (5 # 100).
Proof.
  assert (Hd : ForallOrdPairs (fun a b => ~ fst a == fst b)
                 [(2, 9 # 100); (1, 5 # 100); (3 # 2, 7 # 100)]).
  { repeat (constructor || (let H := fresh in intro H; vm_compute in H; discriminate H)). }
  split; [exact Hd|].
  destruct (interp_piecewise_spec _ Hd) as [_ [Hlo _]].
  apply (Hlo 1).
  - right. left. reflexivity.
  - intros k Hk. simpl in Hk.
    destruct Hk as [<-|[<-|[<-|[]]]]; apply Qle_bool_iff; reflexivity.
  - apply Qle_bool_iff. reflexivity.
Defined.

(* ------------------------------------------------------------------ *)
(** ** Design-chart lookup *)

Lemma div_neg_antitone (a b d : Q) : d < 0 -> a <= b -> b / d <= a / d.
Proof.
  intros Hd Hab. unfold Qdiv.
  assert (Hinv : d * / d == 1) by (apply Qmult_inv_r; intro H; lra).
  assert (Hc : / d < 0) by nra.
  nra.
Qed.

Lemma segment_param_bounds (x K1 K2 : Q) :
  K2 <= x -> x < K1 -> 0 <= (x - K1) / (K2 - K1) /\ (x - K1) / (K2 - K1) <= 1.
Proof.
  intros H2 H1.
  assert (Hd : 0 < K1 - K2) by lra.
  assert (Heq : (x - K1) / (K2 - K1) == (K1 - x) / (K1 - K2)) by (field; split; intro; lra).
  rewrite Heq. split.
  - apply Qle_shift_div_l; [exact Hd|]. lra.
  - apply Qle_shift_div_r; [exact Hd|]. lra.
Qed.

Lemma lerp_strict_below (a1 a2 b1 b2 t : Q) :
  0 <= t -> t <= 1 -> b1 < a1 -> b2 < a2 -> lerp b1 b2 t < lerp a1 a2 t.
Proof.
  intros H0 H1 H2 H3. unfold lerp.
  assert (P1 : 0 <= (1 - t) * (a1 - b1)) by (apply Qmult_le_0_compat; lra).
  assert (P2 : 0 <= t * (a2 - b2)) by (apply Qmult_le_0_compat; lra).
  destruct (Qlt_le_dec 0 t) as [Ht|Ht].
  - assert (P3 : 0 < t * (a2 - b2)) by (apply Qmult_lt_0_compat; lra). lra.
  - assert (Ht0 : t == 0) by lra. rewrite Ht0. lra.
Qed.

Lemma lerp_between (a b t : Q) :
  a <= b -> 0 <= t -> t <= 1 -> a <= lerp a b t /\ lerp a b t <= b.
Proof. intros. unfold lerp. split; nra. Qed.

Lemma lerp_mono_t (a b t1 t2 : Q) : a <= b -> t1 <= t2 -> lerp a b t1 <= lerp a b t2.
Proof. intros. unfold lerp. nra. Qed.

Lemma Qle_bool_false_lt (a b : Q) : Qle_bool a b = false -> b < a.
Proof. intro E. apply Qnot_le_lt. intro H. apply Qle_bool_iff in H. congruence. Qed.

Lemma lerp_grade_below (f1 f2 x a1 a2 b1 b2 : Q) :
  f1 < x -> x <= f2 -> b1 < a1 -> b2 < a2 ->
  lerp b1 b2 ((x - f1) / (f2 - f1)) < lerp a1 a2 ((x - f1) / (f2 - f1)).
Proof.
  intros H1 H2 Hb1 Hb2.
  assert (Hd : 0 < f2 - f1) by lra.
  apply lerp_strict_below; [| |exact Hb1|exact Hb2].
  - apply Qle_shift_div_l; [exact Hd|]. lra.
  - apply Qle_shift_div_r; [exact Hd|]. lra.
Qed.

Lemma K_map_nodes (r : KRow) :
  K_map r 25 = Some r.(k_c25) /\ K_map r 30 = Some r.(k_c30) /\
  K_map r 35 = Some r.(k_c35) /\ K_map r 40 = Some r.(k_c40) /\
  K_map r 45 = Some r.(k_c45) /\ K_map r 50 = Some r.(k_c50).
Proof. repeat split. Qed.

(** The grade interpolation keeps a strictly lower row strictly lower. *)
Lemma K_row_concrete_value_below (r r' : KRow) (fck a b : Q) :
  chart_row_below r' r ->
  K_row_concrete_value r fck = Some a -> K_row_concrete_value r' fck = Some b -> b < a.
Proof.
  intros [H25 [H30 [H35 [H40 [H45 H50]]]]].
  destruct (K_map_nodes r) as [M25 [M30 [M35 [M40 [M45 M50]]]]].
  destruct (K_map_nodes r') as [N25 [N30 [N35 [N40 [N45 N50]]]]].
  unfold K_row_concrete_value.
  destruct (Qle_bool fck 25) eqn:E0.
  { rewrite M25, N25. intros Ha Hb. injection Ha as <-. injection Hb as <-. exact H25. }
  destruct (Qle_bool 50 fck) eqn:E5.
  { rewrite M50, N50. intros Ha Hb. injection Ha as <-. injection Hb as <-. exact H50. }
  apply Qle_bool_false_lt in E0. apply Qle_bool_false_lt in E5.
  cbv beta iota zeta delta [CONC_NODES next_bracket obind].
  repeat match goal with
  | |- context [Qle_bool fck ?c] =>
      let E := fresh "E" in
      destruct (Qle_bool fck c) eqn:E;
      [apply Qle_bool_iff in E | apply Qle_bool_false_lt in E]
  end;
  cbv beta iota zeta;
  rewrite ?M25, ?M30, ?M35, ?M40, ?M45, ?M50, ?N25, ?N30, ?N35, ?N40, ?N45, ?N50;
  cbv beta iota zeta delta [obind];
  intros Ha Hb; try discriminate;
  injection Ha as <-; injection Hb as <-;
  apply lerp_grade_below; lra.
Qed.

Lemma desc_chain_of_chart (grp : SteelGroup) (fck : Q) (rows : list KRow) (Kvals : list Q) :
  chart_ordered rows ->
  map_option (fun r => K_row_concrete_value r fck) rows = Some Kvals ->
  desc_chain grp (combine Kvals rows).
Proof.
  revert Kvals. induction rows as [|r rows IH]; intros Kvals Hord HK.
  - destruct Kvals; exact I.
  - cbn [map_option obind] in HK.
    destruct (K_row_concrete_value r fck) as [a|] eqn:Ha; [|discriminate].
    destruct (map_option (fun r0 => K_row_concrete_value r0 fck) rows) as [Ks|] eqn:HKs;
      [|discriminate].
    injection HK as <-.
    destruct rows as [|r' rows'].
    + cbn [map_option] in HKs. injection HKs as <-. exact I.
    + destruct Hord as [Hbelow [H420 [H500 Hord']]].
      specialize (IH Ks Hord' eq_refl).
      cbn [map_option obind] in HKs.
      destruct (K_row_concrete_value r' fck) as [b|] eqn:Hb; [|discriminate].
      destruct (map_option (fun r0 => K_row_concrete_value r0 fck) rows') as [Ks'|];
        [|discriminate].
      injection HKs as <-.
      cbn [combine desc_chain fst snd].
      split; [exact (K_row_concrete_value_below r r' fck a b Hbelow Ha Hb)|].
      split; [destruct grp; simpl; assumption|].
      exact IH.
Qed.

Lemma desc_chain_last_lt (grp : SteelGroup) (p q : Q * KRow) (rest : list (Q * KRow)) :
  desc_chain grp (p :: q :: rest) -> fst (last rest q) < fst p.
Proof.
  revert p q. induction rest as [|q' rest IH]; intros p q H.
  - destruct H as [H _]. exact H.
  - rewrite last_cons_default. destruct H as [Hqp [_ H]].
    specialize (IH q q' H). lra.
Qed.

Lemma ks_segment_bracket (grp : SteelGroup) (x : Q) (p : Q * KRow) (rest : list (Q * KRow))
    (a b : Q * KRow) :
  next_bracket (fun kr : Q * KRow => Qle_bool (fst kr) x) p rest = Some (a, b) ->
  ks_segment grp p rest x =
    lerp (ks_col grp (snd a)) (ks_col grp (snd b)) ((x - fst a) / (fst b - fst a)).
Proof.
  revert p. induction rest as [|q rest IH]; intros p H; cbn [next_bracket] in H;
    [discriminate|].
  cbn [ks_segment]. destruct (Qle_bool (fst q) x).
  - injection H as <- <-. reflexivity.
  - apply IH. exact H.
Qed.

(** Below the first breakpoint the coefficient is at least the first row's. *)
Lemma ks_segment_ge_head (grp : SteelGroup) (p : Q * KRow) (rest : list (Q * KRow)) (x : Q) :
  desc_chain grp (p :: rest) -> x < fst p -> ks_col grp (snd p) <= ks_segment grp p rest x.
Proof.
  revert p. induction rest as [|q rest IH]; intros p Hc Hx; cbn [ks_segment].
  - apply Qle_refl.
  - destruct Hc as [Hqp [Hks Hc]].
    destruct (Qle_bool (fst q) x) eqn:E.
    + apply Qle_bool_iff in E.
      destruct (segment_param_bounds x (fst p) (fst q) E Hx) as [T0 T1].
      exact (proj1 (lerp_between _ _ _ Hks T0 T1)).
    + apply Qle_bool_false_lt in E.
      specialize (IH q Hc E). lra.
Qed.

(** Below the first breakpoint the interpolation is non-increasing. *)
Lemma ks_segment_antitone (grp : SteelGroup) (p : Q * KRow) (rest : list (Q * KRow)) (x y : Q) :
  desc_chain grp (p :: rest) -> x <= y -> y < fst p ->
  ks_segment grp p rest y <= ks_segment grp p rest x.
Proof.
  revert p. induction rest as [|q rest IH]; intros p Hc Hxy Hy; cbn [ks_segment].
  - apply Qle_refl.
  - destruct Hc as [Hqp [Hks Hc]].
    destruct (Qle_bool (fst q) y) eqn:Ey; destruct (Qle_bool (fst q) x) eqn:Ex.
    + apply Qle_bool_iff in Ex. apply Qle_bool_iff in Ey.
      apply lerp_mono_t; [exact Hks|].
      apply div_neg_antitone; lra.
    + apply Qle_bool_iff in Ey. apply Qle_bool_false_lt in Ex.
      destruct (segment_param_bounds y (fst p) (fst q) Ey Hy) as [T0 T1].
      pose proof (proj2 (lerp_between _ _ _ Hks T0 T1)) as Hup.
      pose proof (ks_segment_ge_head grp q rest x Hc Ex) as Hlo. lra.
    + apply Qle_bool_iff in Ex. apply Qle_bool_false_lt in Ey. lra.
    + apply Qle_bool_false_lt in Ey. exact (IH q Hc Hxy Ey).
Qed.

(** At or below the last breakpoint the interpolation gives the last row's coefficient. *)
Lemma ks_segment_below_last (grp : SteelGroup) (p : Q * KRow) (rest : list (Q * KRow)) (x : Q) :
  desc_chain grp (p :: rest) -> x <= fst (last rest p) -> x < fst p ->
  ks_segment grp p rest x == ks_col grp (snd (last rest p)).
Proof.
  revert p. induction rest as [|q rest IH]; intros p Hc Hl Hx; cbn [ks_segment].
  - apply Qeq_refl.
  - rewrite last_cons_default in Hl |- *.
    pose proof Hc as Hc0.
    destruct Hc as [Hqp [Hks Hc]].
    destruct (Qle_bool (fst q) x) eqn:E.
    + apply Qle_bool_iff in E.
      destruct rest as [|q' rest'].
      * cbn [last] in Hl |- *.
        assert (Ht : (x - fst p) / (fst q - fst p) == 1).
        { assert (Hxq : x == fst q) by lra. rewrite Hxq. field. intro H. lra. }
        unfold lerp. rewrite Ht. ring.
      * rewrite last_cons_default in Hl.
        pose proof (desc_chain_last_lt grp q q' rest' Hc). lra.
    + apply Qle_bool_false_lt in E. apply IH; assumption.
Qed.

(** The value of [ks_from_Kcalc]: the first row's coefficient at or above
    the first breakpoint, the row interpolation below it. *)
Lemma ks_from_Kcalc_value (rows : list KRow) (fck : Q) (steel : string) (Kvals : list Q)
    (K0 : Q) (r0 : KRow) (rest : list (Q * KRow)) (z v : Q) :
  map_option (fun r => K_row_concrete_value r fck) rows = Some Kvals ->
  combine Kvals rows = (K0, r0) :: rest ->
  desc_chain (steel_group steel) ((K0, r0) :: rest) ->
  ks_from_Kcalc rows z fck steel = Some v ->
  v == if Qle_bool K0 z then ks_col (steel_group steel) r0
       else ks_segment (steel_group steel) (K0, r0) rest z.
Proof.
  intros HK Hcomb Hc Hz.
  unfold ks_from_Kcalc in Hz. rewrite HK in Hz. cbn [obind] in Hz.
  rewrite Hcomb in Hz. cbv beta iota zeta in Hz.
  destruct (Qle_bool K0 z) eqn:E0.
  - injection Hz as <-. apply Qeq_refl.
  - apply Qle_bool_false_lt in E0.
    destruct (last rest (K0, r0)) as [Kl rl] eqn:Hl.
    destruct (Qle_bool z Kl) eqn:E1.
    + injection Hz as <-. apply Qle_bool_iff in E1.
      pose proof (ks_segment_below_last (steel_group steel) (K0, r0) rest z Hc) as H.
      rewrite Hl in H. symmetry. apply H; [exact E1 | exact E0].
    + destruct (next_bracket (fun kr : Q * KRow => Qle_bool (fst kr) z) (K0, r0) rest)
        as [[[K1 r1] [K2 r2]]|] eqn:Hb; [|discriminate].
      cbn [obind] in Hz. injection Hz as <-.
      rewrite (ks_segment_bracket (steel_group steel) z (K0, r0) rest (K1, r1) (K2, r2) Hb).
      apply Qeq_refl.
Qed.

(** C3 (amended): for a fixed grade and steel group, on a chart whose
    per-grade values decrease strictly down the rows and whose coefficient
    columns are non-decreasing, the coefficient returned by [ks_from_Kcalc]
    is non-increasing in the chart input [Kcalc_x1e5]. *)
Theorem ks_from_Kcalc_antitone (rows : list KRow) (fck : Q) (steel : string) (x y vx vy : Q) :
  chart_ordered rows -> x <= y ->
  ks_from_Kcalc rows x fck steel = Some vx ->
  ks_from_Kcalc rows y fck steel = Some vy ->
  vy <= vx.
Proof.
  intros Hord Hxy Hx Hy.
  destruct (map_option (fun r => K_row_concrete_value r fck) rows) as [Kvals|] eqn:HK;
    [|unfold ks_from_Kcalc in Hx; rewrite HK in Hx; discriminate].
  pose proof (desc_chain_of_chart (steel_group steel) fck rows Kvals Hord HK) as Hc.
  destruct (combine Kvals rows) as [|[K0 r0] rest] eqn:Hcomb.
  { unfold ks_from_Kcalc in Hx. rewrite HK in Hx. cbn [obind] in Hx.
    rewrite Hcomb in Hx. discriminate. }
  pose proof (ks_from_Kcalc_value rows fck steel Kvals K0 r0 rest x vx HK Hcomb Hc Hx) as Ex.
  pose proof (ks_from_Kcalc_value rows fck steel Kvals K0 r0 rest y vy HK Hcomb Hc Hy) as Ey.
  rewrite Ex, Ey.
  destruct (Qle_bool K0 y) eqn:Ey0; destruct (Qle_bool K0 x) eqn:Ex0.
  - apply Qle_refl.
  - apply Qle_bool_false_lt in Ex0. exact (ks_segment_ge_head _ (K0, r0) rest x Hc Ex0).
  - apply Qle_bool_iff in Ex0. apply Qle_bool_false_lt in Ey0. lra.
  - apply Qle_bool_false_lt in Ex0. apply Qle_bool_false_lt in Ey0.
    exact (ks_segment_antitone _ (K0, r0) rest x y Hc Hxy Ey0).
Qed.

(** Witness for C3: the sample chart is ordered, and between the inputs 9
    and 38 (grade C30, S420) the coefficient falls from 3.20 to 2.90. *)
Lemma ks_from_Kcalc_antitone_witness :
  chart_ordered K_TABLE_ROWS_sample /\
  ks_from_Kcalc K_TABLE_ROWS_sample 9 30 "S420" = Some (320 # 100) /\
  ks_from_Kcalc K_TABLE_ROWS_sample 38 30 "S420" = Some (290 # 100) /\
  290 # 100 <= 320 # 100.
Proof.
  assert (Ho : chart_ordered K_TABLE_ROWS_sample).
  { cbv [chart_ordered chart_row_below K_TABLE_ROWS_sample k_c25 k_c30 k_c35 k_c40 k_c45 k_c50
         ks_s420 ks_b500].
    repeat split; try reflexivity; apply Qle_bool_iff; reflexivity. }
  assert (H9 : ks_from_Kcalc K_TABLE_ROWS_sample 9 30 "S420" = Some (320 # 100))
    by reflexivity.
  assert (H38 : ks_from_Kcalc K_TABLE_ROWS_sample 38 30 "S420" = Some (290 # 100))
    by reflexivity.
  split; [exact Ho|]. split; [exact H9|]. split; [exact H38|].
  apply (ks_from_Kcalc_antitone K_TABLE_ROWS_sample 30 "S420" 9 38); [exact Ho | | exact H9 | exact H38].
  apply Qle_bool_iff; reflexivity.
Defined.

(** C3 counterexample: on a chart of the structure the spec gives, raising
    the input from 9 to 38 (grade C30, S420) lowers the coefficient from
    3.20 to 2.90. *)
Lemma ks_from_Kcalc_decreases_counterexample :
  9 < 38 /\
  ks_from_Kcalc K_TABLE_ROWS_sample 9 30 "S420" = Some (320 # 100) /\
  ks_from_Kcalc K_TABLE_ROWS_sample 38 30 "S420" = Some (290 # 100) /\
  290 # 100 < 320 # 100.
Proof. repeat split; reflexivity. Qed.

(* ================================================================== *)
(** ** Further properties of the code *)

Ltac bool_facts :=
  repeat match goal with
  | H : Qltb _ _ = true |- _ => apply Qltb_iff in H
  | H : Qltb _ _ = false |- _ => apply Qltb_false in H
  | H : Qle_bool _ _ = true |- _ => apply Qle_bool_iff in H
  | H : Qle_bool _ _ = false |- _ => apply Qle_bool_false_lt in H
  end.

(** [validate_coefficient_method_applicability]: the method is applicable
    exactly when g > 0 with q/g <= 2 and L_max > 0 with L_min/L_max > 0.8,
    that is exactly when no issue is recorded; [details] always holds one
    entry per check. *)
Theorem validate_coefficient_method_applicability_spec (q g L_min L_max : Q) :
  let '(is_applicable, issues, details) :=
    validate_coefficient_method_applicability q g L_min L_max in
  (is_applicable = true <->
     (0 < g /\ q / g <= 2) /\ (0 < L_max /\ 4 # 5 < L_min / L_max)) /\
  (is_applicable = true <-> issues = []) /\
  List.length details = 2%nat.
Proof.
  unfold validate_coefficient_method_applicability.
  destruct (Qltb 0 g) eqn:E1; [destruct (Qltb 2 (q / g)) eqn:E2|];
  (destruct (Qltb 0 L_max) eqn:E3; [destruct (Qle_bool (L_min / L_max) (4 # 5)) eqn:E4|]);
  cbn [app List.length Nat.eqb]; bool_facts;
  (split; [split; [intro H; try discriminate H; repeat split; lra
                  | intros [[Hg Hqg] [HL HLr]]; try reflexivity; exfalso; lra] |]);
  (split; [split; intro H; try discriminate H; reflexivity | reflexivity]).
Qed.

(** [calculate_loads]: the factored load [pd = 1.4 g_total + 1.6 q] never
    decreases when the thickness, the additional dead load or the live load
    grows, and strictly increases when one of them strictly grows. *)
Theorem calculate_loads_pd_mono (h1 h2 g1 g2 q1 q2 : Q) :
  h1 <= h2 -> g1 <= g2 -> q1 <= q2 ->
  let pd1 := snd (calculate_loads h1 g1 q1) in
  let pd2 := snd (calculate_loads h2 g2 q2) in
  pd1 <= pd2 /\ (h1 < h2 \/ g1 < g2 \/ q1 < q2 -> pd1 < pd2).
Proof.
  intros Hh Hg Hq. cbv zeta. unfold calculate_loads. cbn [snd].
  assert (E1 : h1 / 1000 * 25 == h1 * (1 # 40)) by field.
  assert (E2 : h2 / 1000 * 25 == h2 * (1 # 40)) by field.
  rewrite E1, E2.
  split; [lra|]. intros [H|[H|H]]; lra.
Qed.

Lemma calculate_loads_pd_mono_witness :
  (120 <= 150 /\ 1 <= 1 /\ 2 <= 3) /\
  snd (calculate_loads 120 1 2) <= snd (calculate_loads 150 1 3) /\
  (120 < 150 \/ 1 < 1 \/ 2 < 3 ->
   snd (calculate_loads 120 1 2) < snd (calculate_loads 150 1 3)).
Proof.
  assert (H1 : 120 <= 150) by (apply Qle_bool_iff; reflexivity).
  assert (H2 : 1 <= 1) by (apply Qle_bool_iff; reflexivity).
  assert (H3 : 2 <= 3) by (apply Qle_bool_iff; reflexivity).
  split; [split; [exact H1 | split; [exact H2 | exact H3]]|].
  exact (calculate_loads_pd_mono 120 150 1 1 2 3 H1 H2 H3).
Defined.

Lemma py_upper_char_idem (c : ascii) : py_upper_char (py_upper_char c) = py_upper_char c.
Proof. destruct c as [[] [] [] [] [] [] [] []]; reflexivity. Qed.

Lemma is_py_space_upper (c : ascii) : is_py_space (py_upper_char c) = is_py_space c.
Proof. destruct c as [[] [] [] [] [] [] [] []]; reflexivity. Qed.

Lemma py_upper_map (s : string) :
  py_upper s = string_of_list_ascii (map py_upper_char (list_ascii_of_string s)).
Proof. induction s as [|c s IH]; simpl; [reflexivity|]. rewrite IH. reflexivity. Qed.

Lemma py_upper_idem (s : string) : py_upper (py_upper s) = py_upper s.
Proof.
  induction s as [|c s IH]; simpl; [reflexivity|].
  rewrite py_upper_char_idem, IH. reflexivity.
Qed.

Lemma lstrip_list_upper (l : list ascii) :
  lstrip_list (map py_upper_char l) = map py_upper_char (lstrip_list l).
Proof.
  induction l as [|c l IH]; simpl; [reflexivity|].
  rewrite is_py_space_upper. destruct (is_py_space c); [exact IH | reflexivity].
Qed.

Lemma py_strip_upper (s : string) : py_strip (py_upper s) = py_upper (py_strip s).
Proof.
  unfold py_strip. rewrite (py_upper_map s), list_ascii_of_string_of_list_ascii.
  rewrite lstrip_list_upper, <- map_rev, lstrip_list_upper, <- map_rev.
  rewrite (py_upper_map (string_of_list_ascii _)), list_ascii_of_string_of_list_ascii.
  reflexivity.
Qed.

Lemma py_strip_space (c : ascii) (s : string) :
  is_py_space c = true -> py_strip (String c s) = py_strip s.
Proof. intro H. unfold py_strip. simpl. rewrite H. reflexivity. Qed.

(** The grade-name rules ([parse_concrete], [steel_group],
    [rho_min_oneway]) ignore letter case and leading blanks: a name gives the
    same result as its upper-case form and as the name preceded by a space. *)
Theorem grade_names_normalised (py_float : string -> option Q) (name : string) :
  parse_concrete py_float (py_upper name) = parse_concrete py_float name /\
  steel_group (py_upper name) = steel_group name /\
  rho_min_oneway (py_upper name) = rho_min_oneway name /\
  parse_concrete py_float (String " " name) = parse_concrete py_float name /\
  steel_group (String " " name) = steel_group name /\
  rho_min_oneway (String " " name) = rho_min_oneway name.
Proof.
  unfold parse_concrete, steel_group, rho_min_oneway.
  rewrite !py_strip_upper, !py_upper_idem, !(py_strip_space " " name) by reflexivity.
  repeat split.
Qed.

(** [edge_continuity_note_for_case]: for the cases 1..7 the continuous and
    the discontinuous edges together list each of the four edges exactly
    once; for any other case both lists are empty and the note says "yok"
    for both. *)
Theorem edge_sets_partition (case_id : Z) (lx ly : Q) :
  ((1 <= case_id <= 7)%Z ->
     NoDup (fst (edge_sets case_id lx ly) ++ snd (edge_sets case_id lx ly)) /\
     forall e, In e (fst (edge_sets case_id lx ly) ++ snd (edge_sets case_id lx ly)) <->
               In e ["x=0"; "x=lx"; "y=0"; "y=ly"]%string) /\
  (~ (1 <= case_id <= 7)%Z ->
     edge_sets case_id lx ly = ([], []) /\
     edge_continuity_note_for_case case_id lx ly =
       "Sürekli kenarlar: yok | Süreksiz kenarlar: yok (not: 2/3/6 için varsayım)"%string).
Proof.
  split.
  - intros Hc.
    assert (Hcases : case_id = 1%Z \/ case_id = 2%Z \/ case_id = 3%Z \/ case_id = 4%Z \/
                     case_id = 5%Z \/ case_id = 6%Z \/ case_id = 7%Z) by lia.
    unfold edge_sets.
    destruct (Qle_bool lx ly);
      (destruct Hcases as [->|[->|[->|[->|[->|[->| ->]]]]]]; cbn).
    all: split; [|intro e; tauto].
    all: repeat (apply NoDup_cons; [cbn; intuition discriminate|]); apply NoDup_nil.
  - intros Hc.
    assert (Hsets : edge_sets case_id lx ly = ([], [])).
    { unfold edge_sets.
      destruct (Z.eqb_spec case_id 1); [lia|].
      destruct (Z.eqb_spec case_id 7); [lia|].
      destruct (Z.eqb_spec case_id 4); [lia|].
      destruct (Z.eqb_spec case_id 5); [lia|].
      destruct (Z.eqb_spec case_id 2); [lia|].
      destruct (Z.eqb_spec case_id 3); [lia|].
      destruct (Z.eqb_spec case_id 6); [lia|].
      reflexivity. }
    split; [exact Hsets|].
    unfold edge_continuity_note_for_case. rewrite Hsets. reflexivity.
Qed.

Lemma edge_sets_partition_witness :
  (1 <= 3 <= 7)%Z /\ ~ (1 <= 9 <= 7)%Z /\
  (NoDup (fst (edge_sets 3 4 5) ++ snd (edge_sets 3 4 5)) /\
   forall e, In e (fst (edge_sets 3 4 5) ++ snd (edge_sets 3 4 5)) <->
             In e ["x=0"; "x=lx"; "y=0"; "y=ly"]%string) /\
  edge_sets 9 4 5 = ([], []).
Proof.
  assert (H3 : (1 <= 3 <= 7)%Z) by lia.
  assert (H9 : ~ (1 <= 9 <= 7)%Z) by lia.
  split; [exact H3|]. split; [exact H9|]. split.
  - exact (proj1 (edge_sets_partition 3 4 5) H3).
  - exact (proj1 (proj2 (edge_sets_partition 9 4 5) H9)).
Defined.


Lemma Qabs_opp_syn (x : Q) : Qabs (- x) = Qabs x.
Proof. destruct x as [n d]. unfold Qabs, Qopp. simpl. rewrite Z.abs_opp. reflexivity. Qed.

Lemma Qdiv_le_num (a b d : Q) : 0 < d -> a <= b -> a / d <= b / d.
Proof.
  intros Hd Hab. unfold Qdiv. apply Qmult_le_compat_r; [exact Hab|].
  apply Qinv_le_0_compat. lra.
Qed.

Lemma Qdiv_le_den (a b1 b2 : Q) : 0 <= a -> 0 < b1 -> b1 <= b2 -> a / b2 <= a / b1.
Proof.
  intros Ha Hb1 Hb12. unfold Qdiv.
  assert (Hi : / b2 <= / b1).
  { apply Qle_shift_inv_l; [lra|].
    assert (Hb2i : 0 <= / b2) by (apply Qinv_le_0_compat; lra).
    assert (E : / b2 * b2 == 1) by (rewrite Qmult_comm; apply Qmult_inv_r; intro; lra).
    nra. }
  rewrite (Qmult_comm a (/ b2)), (Qmult_comm a (/ b1)).
  apply Qmult_le_compat_r; assumption.
Qed.

Lemma calc_K_and_As_from_M_inv (rows : list KRow) (M d_m fck : Q) (steel : string) (K ks A : Q) :
  EPS12 < Qabs M ->
  calc_K_and_As_from_M rows M d_m fck steel = Some (K, ks, A) ->
  K = 1000 * (d_m * 1000 * (d_m * 1000)) / (Qabs M * 1000000) * 100 /\
  ks_from_Kcalc rows K fck steel = Some ks /\
  A = ks / 1000 * (Qabs M * 1000000 / (d_m * 1000)).
Proof.
  intros HM H. unfold calc_K_and_As_from_M in H.
  destruct (Qle_bool (Qabs M) EPS12) eqn:E; [apply Qle_bool_iff in E; exfalso; lra|].
  cbv zeta in H.
  destruct (ks_from_Kcalc rows (1000 * (d_m * 1000 * (d_m * 1000)) / (Qabs M * 1000000) * 100) fck steel)
    as [v|] eqn:Hv; [|discriminate].
  cbn [obind] in H. injection H as <- <- <-.
  split; [reflexivity|]. split; [exact Hv | reflexivity].
Qed.

Lemma ks_from_Kcalc_le (rows : list KRow) (fck : Q) (steel : string) (x y vx vy : Q) :
  chart_ordered rows -> x <= y ->
  ks_from_Kcalc rows x fck steel = Some vx ->
  ks_from_Kcalc rows y fck steel = Some vy ->
  vy <= vx.
Proof.
  intros Hord Hxy Hx Hy.
  destruct (map_option (fun r => K_row_concrete_value r fck) rows) as [Kvals|] eqn:HK;
    [|unfold ks_from_Kcalc in Hx; rewrite HK in Hx; discriminate].
  pose proof (desc_chain_of_chart (steel_group steel) fck rows Kvals Hord HK) as Hc.
  destruct (combine Kvals rows) as [|[K0 r0] rest] eqn:Hcomb.
  { unfold ks_from_Kcalc in Hx. rewrite HK in Hx. cbn [obind] in Hx.
    rewrite Hcomb in Hx. discriminate. }
  pose proof (ks_from_Kcalc_value rows fck steel Kvals K0 r0 rest x vx HK Hcomb Hc Hx) as Ex.
  pose proof (ks_from_Kcalc_value rows fck steel Kvals K0 r0 rest y vy HK Hcomb Hc Hy) as Ey.
  rewrite Ex, Ey.
  destruct (Qle_bool K0 y) eqn:Ey0; destruct (Qle_bool K0 x) eqn:Ex0.
  - apply Qle_refl.
  - apply Qle_bool_false_lt in Ex0. exact (ks_segment_ge_head _ (K0, r0) rest x Hc Ex0).
  - apply Qle_bool_iff in Ex0. apply Qle_bool_false_lt in Ey0. lra.
  - apply Qle_bool_false_lt in Ex0. apply Qle_bool_false_lt in Ey0.
    exact (ks_segment_antitone _ (K0, r0) rest x y Hc Hxy Ey0).
Qed.

Lemma ks_from_Kcalc_ge_first (rows' : list KRow) (r0 : KRow) (fck : Q) (steel : string) (z v : Q) :
  chart_ordered (r0 :: rows') -> ks_from_Kcalc (r0 :: rows') z fck steel = Some v ->
  ks_col (steel_group steel) r0 <= v.
Proof.
  intros Hord Hz.
  destruct (map_option (fun r => K_row_concrete_value r fck) (r0 :: rows')) as [Kvals|] eqn:HK;
    [|unfold ks_from_Kcalc in Hz; rewrite HK in Hz; discriminate].
  pose proof (desc_chain_of_chart (steel_group steel) fck _ Kvals Hord HK) as Hc.
  destruct Kvals as [|K0 Ks].
  { unfold ks_from_Kcalc in Hz. rewrite HK in Hz. discriminate. }
  cbn [combine] in Hc.
  pose proof (ks_from_Kcalc_value _ fck steel (K0 :: Ks) K0 r0 (combine Ks rows') z v
                HK eq_refl Hc Hz) as E.
  rewrite E. destruct (Qle_bool K0 z) eqn:E0; [apply Qle_refl|].
  apply Qle_bool_false_lt in E0. exact (ks_segment_ge_head _ (K0, r0) _ z Hc E0).
Qed.

(** [calc_K_and_As_from_M] only uses the magnitude of the moment: a
    hogging moment -M gives the same (K, ks, As) as the sagging moment M. *)
Theorem calc_K_and_As_from_M_sign (rows : list KRow) (M d_m fck : Q) (steel : string) :
  calc_K_and_As_from_M rows (- M) d_m fck steel = calc_K_and_As_from_M rows M d_m fck steel.
Proof. unfold calc_K_and_As_from_M. rewrite Qabs_opp_syn. reflexivity. Qed.

(** [calc_K_and_As_from_M]: on a chart ordered as the design chart is
    (values decreasing down the rows, coefficients non-decreasing, the
    coefficient column used non-negative), for a positive effective depth a
    larger moment magnitude (above the 1e-12 threshold) gives a smaller or
    equal K, a larger or equal ks and a larger or equal steel area. *)
Theorem calc_K_and_As_from_M_mono (rows : list KRow) (d_m fck : Q) (steel : string)
    (M1 M2 K1 ks1 A1 K2 ks2 A2 : Q) :
  chart_ordered rows ->
  Forall (fun r => 0 <= ks_col (steel_group steel) r) rows ->
  0 < d_m -> EPS12 < Qabs M1 -> Qabs M1 <= Qabs M2 ->
  calc_K_and_As_from_M rows M1 d_m fck steel = Some (K1, ks1, A1) ->
  calc_K_and_As_from_M rows M2 d_m fck steel = Some (K2, ks2, A2) ->
  K2 <= K1 /\ ks1 <= ks2 /\ A1 <= A2.
Proof.
  intros Hord Hnn Hd HM1 H12 Hc1 Hc2.
  assert (HM2 : EPS12 < Qabs M2) by lra.
  destruct (calc_K_and_As_from_M_inv _ _ _ _ _ _ _ _ HM1 Hc1) as [EK1 [Hks1 EA1]].
  destruct (calc_K_and_As_from_M_inv _ _ _ _ _ _ _ _ HM2 Hc2) as [EK2 [Hks2 EA2]].
  assert (HE : 0 < EPS12) by reflexivity.
  assert (HK : K2 <= K1).
  { rewrite EK1, EK2. apply Qmult_le_compat_r; [|lra].
    apply Qdiv_le_den; [|lra|lra].
    assert (0 <= d_m * 1000 * (d_m * 1000)) by nra. lra. }
  assert (Hks : ks1 <= ks2) by exact (ks_from_Kcalc_le rows fck steel K2 K1 ks2 ks1 Hord HK Hks2 Hks1).
  assert (Hks0 : 0 <= ks1).
  { destruct rows as [|r0 rows'].
    - unfold ks_from_Kcalc in Hks1. cbn in Hks1. discriminate.
    - pose proof (Forall_inv Hnn) as Hr0. cbv beta in Hr0.
      pose proof (ks_from_Kcalc_ge_first rows' r0 fck steel K1 ks1 Hord Hks1). lra. }
  split; [exact HK|]. split; [exact Hks|].
  rewrite EA1, EA2.
  set (u1 := Qabs M1 * 1000000 / (d_m * 1000)).
  set (u2 := Qabs M2 * 1000000 / (d_m * 1000)).
  assert (Hu : u1 <= u2) by (apply Qdiv_le_num; lra).
  assert (Hu0 : 0 <= u1) by (apply Qle_shift_div_l; lra).
  assert (Hk : ks1 / 1000 <= ks2 / 1000) by (apply Qdiv_le_num; [reflexivity|exact Hks]).
  assert (Hk0 : 0 <= ks1 / 1000) by (apply Qle_shift_div_l; [reflexivity|lra]).
  set (k1 := ks1 / 1000) in *. set (k2 := ks2 / 1000) in *.
  nra.
Qed.

Lemma calc_K_and_As_from_M_mono_witness :
  chart_ordered K_TABLE_ROWS_sample /\
  Forall (fun r => 0 <= ks_col (steel_group "S420") r) K_TABLE_ROWS_sample /\
  0 < 12 # 100 /\ EPS12 < Qabs 72 /\ Qabs 72 <= Qabs 144 /\
  calc_K_and_As_from_M K_TABLE_ROWS_sample 72 (12 # 100) 30 "S420" =
    Some (14400000000000 # 720000000000,
          5121000000000000000000 # 1710000000000000000000,
          36871200000000000000000000000000 # 20520000000000000000000000000) /\
  calc_K_and_As_from_M K_TABLE_ROWS_sample 144 (12 # 100) 30 "S420" =
    Some (14400000000000 # 1440000000000,
          5724000000000000000000 # 1800000000000000000000,
          82425600000000000000000000000000 # 21600000000000000000000000000) /\
  (14400000000000 # 1440000000000 <= 14400000000000 # 720000000000 /\
   5121000000000000000000 # 1710000000000000000000 <= 5724000000000000000000 # 1800000000000000000000 /\
   36871200000000000000000000000000 # 20520000000000000000000000000
     <= 82425600000000000000000000000000 # 21600000000000000000000000000).
Proof.
  assert (Ho : chart_ordered K_TABLE_ROWS_sample).
  { cbv [chart_ordered chart_row_below K_TABLE_ROWS_sample k_c25 k_c30 k_c35 k_c40 k_c45 k_c50
         ks_s420 ks_b500].
    repeat split; try reflexivity; apply Qle_bool_iff; reflexivity. }
  assert (Hn : Forall (fun r => 0 <= ks_col (steel_group "S420") r) K_TABLE_ROWS_sample).
  { repeat constructor; apply Qle_bool_iff; reflexivity. }
  assert (Hd : 0 < 12 # 100) by reflexivity.
  assert (H1 : EPS12 < Qabs 72) by reflexivity.
  assert (H12 : Qabs 72 <= Qabs 144) by (apply Qle_bool_iff; reflexivity).
  assert (C1 : calc_K_and_As_from_M K_TABLE_ROWS_sample 72 (12 # 100) 30 "S420" =
    Some (14400000000000 # 720000000000,
          5121000000000000000000 # 1710000000000000000000,
          36871200000000000000000000000000 # 20520000000000000000000000000))
    by (vm_compute; reflexivity).
  assert (C2 : calc_K_and_As_from_M K_TABLE_ROWS_sample 144 (12 # 100) 30 "S420" =
    Some (14400000000000 # 1440000000000,
          5724000000000000000000 # 1800000000000000000000,
          82425600000000000000000000000000 # 21600000000000000000000000000))
    by (vm_compute; reflexivity).
  split; [exact Ho|]. split; [exact Hn|]. split; [exact Hd|]. split; [exact H1|].
  split; [exact H12|]. split; [exact C1|]. split; [exact C2|].
  exact (calc_K_and_As_from_M_mono K_TABLE_ROWS_sample (12 # 100) 30 "S420" 72 144
           _ _ _ _ _ _ Ho Hn Hd H1 H12 C1 C2).
Defined.


Lemma next_bracket_none {A : Type} (test : A -> bool) (prev : A) (rest : list A) :
  next_bracket test prev rest = None -> forall c, In c rest -> test c = false.
Proof.
  revert prev. induction rest as [|c r IH]; intros prev H x Hx; [contradiction|].
  simpl in H. destruct (test c) eqn:E; [discriminate|].
  destruct Hx as [<-|Hx]; [exact E|]. exact (IH c H x Hx).
Qed.

Lemma last_in_tail {A : Type} (l : list A) (a : A) : l <> [] -> In (last l a) l.
Proof.
  destruct l as [|b l]; [contradiction|]. intros _.
  rewrite last_cons_default. apply last_in_cons.
Qed.

Lemma map_option_total {A B : Type} (f : A -> option B) (l : list A) :
  (forall a, In a l -> exists b, f a = Some b) ->
  exists bs, map_option f l = Some bs /\ List.length bs = List.length l.
Proof.
  induction l as [|a l IH]; intros H; [exists []; split; reflexivity|].
  destruct (H a (or_introl eq_refl)) as [b Hb].
  destruct IH as [bs [Hbs Hlen]]; [intros a' Ha'; apply H; right; exact Ha'|].
  exists (b :: bs). cbn [map_option obind]. rewrite Hb. cbn [obind]. rewrite Hbs.
  split; [reflexivity|]. simpl. rewrite Hlen. reflexivity.
Qed.

Lemma lerp_convex (lo hi a b t : Q) :
  lo <= a -> a <= hi -> lo <= b -> b <= hi -> 0 <= t -> t <= 1 ->
  lo <= lerp a b t /\ lerp a b t <= hi.
Proof.
  intros Ha1 Ha2 Hb1 Hb2 H0 H1. unfold lerp.
  assert (P1 : 0 <= (1 - t) * (a - lo)) by (apply Qmult_le_0_compat; lra).
  assert (P2 : 0 <= t * (b - lo)) by (apply Qmult_le_0_compat; lra).
  assert (P3 : 0 <= (1 - t) * (hi - a)) by (apply Qmult_le_0_compat; lra).
  assert (P4 : 0 <= t * (hi - b)) by (apply Qmult_le_0_compat; lra).
  split; nra.
Qed.

Lemma param_ge0 (x f1 f2 : Q) : f1 < x -> x <= f2 -> 0 <= (x - f1) / (f2 - f1).
Proof. intros H1 H2. apply Qle_shift_div_l; lra. Qed.

Lemma param_le1 (x f1 f2 : Q) : f1 < x -> x <= f2 -> (x - f1) / (f2 - f1) <= 1.
Proof. intros H1 H2. apply Qle_shift_div_r; lra. Qed.

Ltac K_row_cases M :=
  destruct M as [M25 [M30 [M35 [M40 [M45 M50]]]]];
  unfold K_row_concrete_value;
  let E0 := fresh "E0" in let E5 := fresh "E5" in
  destruct (Qle_bool _ 25) eqn:E0;
  [rewrite M25 |
   destruct (Qle_bool 50 _) eqn:E5;
   [rewrite M50 |
    apply Qle_bool_false_lt in E0; apply Qle_bool_false_lt in E5;
    cbv beta iota zeta delta [CONC_NODES next_bracket obind];
    repeat match goal with
    | |- context [Qle_bool ?f ?c] =>
        let E := fresh "E" in
        destruct (Qle_bool f c) eqn:E;
        [apply Qle_bool_iff in E | apply Qle_bool_false_lt in E]
    end;
    cbv beta iota zeta;
    rewrite ?M25, ?M30, ?M35, ?M40, ?M45, ?M50;
    cbv beta iota zeta delta [obind];
    try (exfalso; lra)]].

Lemma K_row_concrete_value_some (r : KRow) (fck : Q) :
  exists v, K_row_concrete_value r fck = Some v.
Proof. K_row_cases (K_map_nodes r); eexists; reflexivity. Qed.

(** [K_row_concrete_value] never raises: for every grade it returns a value,
    and that value lies within any bounds of the row's six tabulated grade
    values (clamping outside C25..C50, linear interpolation in between). *)
Theorem K_row_concrete_value_range (r : KRow) (fck : Q) :
  exists v, K_row_concrete_value r fck = Some v /\
    forall lo hi,
      lo <= k_c25 r <= hi -> lo <= k_c30 r <= hi -> lo <= k_c35 r <= hi ->
      lo <= k_c40 r <= hi -> lo <= k_c45 r <= hi -> lo <= k_c50 r <= hi ->
      lo <= v <= hi.
Proof.
  K_row_cases (K_map_nodes r);
  (eexists; split; [reflexivity|]);
  intros lo hi [H25 H25'] [H30 H30'] [H35 H35'] [H40 H40'] [H45 H45'] [H50 H50'];
  try (split; assumption);
  apply lerp_convex; try assumption;
  first [apply param_ge0; lra | apply param_le1; lra].
Qed.

(** [ks_from_Kcalc] never raises on a non-empty chart: the bracket search
    below the first breakpoint and above the last one always succeeds. *)
Theorem ks_from_Kcalc_total (rows : list KRow) (Kcalc_x1e5 fck : Q) (steel : string) :
  rows <> [] -> exists v, ks_from_Kcalc rows Kcalc_x1e5 fck steel = Some v.
Proof.
  intros Hne.
  destruct (map_option_total (fun r => K_row_concrete_value r fck) rows) as [Kvals [HK Hlen]];
    [intros r _; apply K_row_concrete_value_some|].
  destruct rows as [|r0 rows']; [contradiction|].
  destruct Kvals as [|K0 Ks]; [discriminate|].
  unfold ks_from_Kcalc. rewrite HK. cbn [obind combine].
  destruct (Qle_bool K0 Kcalc_x1e5) eqn:E0; [eexists; reflexivity|].
  destruct (last (combine Ks rows') (K0, r0)) as [Kl rl] eqn:Hl.
  destruct (Qle_bool Kcalc_x1e5 Kl) eqn:E1; [eexists; reflexivity|].
  destruct (next_bracket (fun kr : Q * KRow => Qle_bool (fst kr) Kcalc_x1e5) (K0, r0)
              (combine Ks rows')) as [[[K1 r1] [K2 r2]]|] eqn:Hb;
    [eexists; reflexivity|].
  exfalso.
  apply Qle_bool_false_lt in E0. apply Qle_bool_false_lt in E1.
  destruct (combine Ks rows') as [|q rest] eqn:Hc.
  - cbn [last] in Hl. injection Hl as <- <-. lra.
  - pose proof (next_bracket_none _ _ _ Hb (last (q :: rest) (K0, r0))
                  (last_in_tail (q :: rest) (K0, r0) ltac:(discriminate))) as Ht.
    rewrite Hl in Ht. cbn [fst] in Ht.
    assert (Ht' : Qle_bool Kl Kcalc_x1e5 = true) by (apply Qle_bool_iff; lra).
    congruence.
Qed.

Lemma ks_from_Kcalc_total_witness :
  K_TABLE_ROWS_sample <> [] /\
  exists v, ks_from_Kcalc K_TABLE_ROWS_sample 25 37 "B500" = Some v.
Proof.
  assert (H : K_TABLE_ROWS_sample <> []) by discriminate.
  split; [exact H|]. exact (ks_from_Kcalc_total K_TABLE_ROWS_sample 25 37 "B500" H).
Defined.

Lemma dict_get_in (d : list (Q * Q)) (k v : Q) :
  dict_get d k = Some v -> exists k', In (k', v) d.
Proof.
  induction d as [|[k0 v0] r IH]; simpl; [discriminate|].
  destruct (Qeq_bool k k0).
  - intros H. injection H as <-. exists k0. left. reflexivity.
  - intros H. destruct (IH H) as [k' Hk']. exists k'. right. exact Hk'.
Qed.

Lemma next_bracket_props (x prev : Q) (rest : list Q) (x1 x2 : Q) :
  next_bracket (fun c => Qle_bool x c) prev rest = Some (x1, x2) -> prev < x ->
  x1 < x /\ x <= x2 /\ In x1 (prev :: rest) /\ In x2 rest.
Proof.
  revert prev. induction rest as [|c r IH]; intros prev H Hp; simpl in H; [discriminate|].
  destruct (Qle_bool x c) eqn:E.
  - injection H as <- <-. apply Qle_bool_iff in E.
    split; [exact Hp|]. split; [exact E|]. split; left; reflexivity.
  - apply Qle_bool_false_lt in E.
    destruct (IH c H E) as [H1 [H2 [H3 H4]]].
    split; [exact H1|]. split; [exact H2|]. split; right; assumption.
Qed.

(** [interp_piecewise] never raises on a non-empty table, and its result
    lies within any bounds of the tabulated values. *)
Theorem interp_piecewise_range (points : list (Q * Q)) (x : Q) :
  points <> [] ->
  exists v, interp_piecewise points x = Some v /\
    forall lo hi, (forall k w, In (k, w) points -> lo <= w <= hi) -> lo <= v <= hi.
Proof.
  intros Hne. destruct (sorted_keys points) as [Hs Hperm].
  assert (Hval : forall k v, dict_get points k = Some v ->
            forall lo hi, (forall k w, In (k, w) points -> lo <= w <= hi) -> lo <= v <= hi).
  { intros k v Hk lo hi Hb. destruct (dict_get_in _ _ _ Hk) as [k' Hk']. exact (Hb _ _ Hk'). }
  unfold interp_piecewise.
  set (xs := QSort.sort (map fst points)) in *.
  destruct xs as [|x0 rest] eqn:Hxs.
  { destruct points as [|p ps]; [contradiction|].
    destruct (proj2 (Hperm (fst p)) (or_introl eq_refl)). }
  assert (Hkey : forall k, In k (x0 :: rest) -> exists v, dict_get points k = Some v).
  { intros k Hk. apply dict_get_in_keys. apply Hperm. exact Hk. }
  destruct (Qle_bool x x0) eqn:E1.
  { destruct (Hkey x0 (or_introl eq_refl)) as [v Hv]. exists v. split; [exact Hv|].
    exact (Hval _ _ Hv). }
  destruct (Qle_bool (last rest x0) x) eqn:E2.
  { destruct (Hkey (last rest x0) (last_in_cons rest x0)) as [v Hv]. exists v.
    split; [exact Hv|]. exact (Hval _ _ Hv). }
  apply Qle_bool_false_lt in E1. apply Qle_bool_false_lt in E2.
  destruct (next_bracket (fun c => Qle_bool x c) x0 rest) as [[x1 x2]|] eqn:Hb.
  - destruct (next_bracket_props x x0 rest x1 x2 Hb E1) as [H1 [H2 [H3 H4]]].
    destruct (Hkey x1 H3) as [a Ha]. destruct (Hkey x2 (or_intror H4)) as [c Hc].
    cbn [obind]. rewrite Ha. cbn [obind]. rewrite Hc. cbn [obind].
    eexists. split; [reflexivity|].
    intros lo hi Hbd.
    destruct (Hval _ _ Ha lo hi Hbd) as [Ha1 Ha2].
    destruct (Hval _ _ Hc lo hi Hbd) as [Hc1 Hc2].
    apply lerp_convex; try assumption; [apply param_ge0 | apply param_le1]; assumption.
  - exfalso. destruct rest as [|y rest'].
    + cbn [last] in E2. lra.
    + pose proof (next_bracket_none _ _ _ Hb (last (y :: rest') x0)
                    (last_in_tail (y :: rest') x0 ltac:(discriminate))) as Ht.
      assert (Ht' : Qle_bool x (last (y :: rest') x0) = true) by (apply Qle_bool_iff; lra).
      congruence.
Qed.

Lemma interp_piecewise_range_witness :
  [(1, 5 # 100); (2, 9 # 100)] <> [] /\
  exists v, interp_piecewise [(1, 5 # 100); (2, 9 # 100)] (3 # 2) = Some v /\
    forall lo hi, (forall k w, In (k, w) [(1, 5 # 100); (2, 9 # 100)] -> lo <= w <= hi) ->
      lo <= v <= hi.
Proof.
  assert (H : [(1, 5 # 100); (2, 9 # 100)] <> []) by discriminate.
  split; [exact H|]. exact (interp_piecewise_range _ (3 # 2) H).
Defined.


Lemma fold_left_min {X Y : Type} (f : option X -> Y -> option X) (r : X -> Q)
    (l : list Y) (init : option X) (y : Y) (bound : Q) :
  (forall y' b, In y' l -> exists b', f (Some b) y' = Some b' /\ r b' <= r b) ->
  (forall a, exists b', f a y = Some b' /\ r b' <= bound) ->
  In y l -> exists res, fold_left f l init = Some res /\ r res <= bound.
Proof.
  revert init. induction l as [|z l IH]; intros init Hstep Hy Hin; [contradiction|].
  simpl. destruct Hin as [<-|Hin].
  - destruct (Hy init) as [b' [Hb' Hr]]. rewrite Hb'.
    apply (fold_left_invariant (fun o => exists res, o = Some res /\ r res <= bound)).
    + exists b'. split; [reflexivity | exact Hr].
    + intros a y' Hy' [b [-> Hb]].
      destruct (Hstep y' b (or_intror Hy')) as [b'' [E Hr'']].
      exists b''. split; [exact E | lra].
  - apply IH; [| exact Hy | exact Hin].
    intros y' b Hy'. apply Hstep. right. exact Hy'.
Qed.

Lemma keep_better_le_best {A : Type} (r : A -> Q) (b cand : A) :
  exists b', keep_better r (Some b) cand = Some b' /\ r b' <= r b.
Proof.
  unfold keep_better. destruct (Qltb (r cand) (r b)) eqn:E; bool_facts;
    (eexists; split; [reflexivity|]); lra.
Qed.

Lemma keep_better_le_cand {A : Type} (r : A -> Q) (best : option A) (cand : A) :
  exists b', keep_better r best cand = Some b' /\ r b' <= r cand.
Proof.
  destruct best as [b|]; unfold keep_better; [destruct (Qltb (r cand) (r b)) eqn:E|];
    bool_facts; (eexists; split; [reflexivity|]); lra.
Qed.

Lemma best_spacing_for_phi_min (PHI_GRID : list Z) (S_GRID : list Q)
    (As_req : Q) (p : Z) (s_max_mm s_min_mm : Z) (s : Q) :
  EPS12 < As_req -> In p PHI_GRID -> In s S_GRID ->
  inject_Z s_min_mm / 10 <= s -> s <= inject_Z s_max_mm / 10 ->
  As_req / 100 <= as_cm2_per_m (inject_Z p) s + EPS12 ->
  exists c, best_spacing_for_phi PHI_GRID S_GRID As_req p s_max_mm s_min_mm = Some c /\
    ratio c <= as_cm2_per_m (inject_Z p) s / (As_req / 100).
Proof.
  intros Hreq Hp Hs Hlo Hhi HA. unfold best_spacing_for_phi.
  destruct (Qle_bool As_req EPS12) eqn:E1.
  { apply Qle_bool_iff in E1. exfalso. lra. }
  assert (E2 : existsb (Z.eqb p) PHI_GRID = true).
  { apply existsb_exists. exists p. split; [exact Hp | apply Z.eqb_refl]. }
  rewrite E2. simpl.
  destruct (In_nth S_GRID s 0 Hs) as [si [Hsi Hnth]].
  apply (fold_left_min _ ratio _ None (si, s)).
  - intros [si' s'] b _.
    destruct (Qltb s' (inject_Z s_min_mm / 10) || Qltb (inject_Z s_max_mm / 10) s');
      [exists b; split; [reflexivity | apply Qle_refl]|].
    destruct (Qltb _ (As_req / 100)); [exists b; split; [reflexivity | apply Qle_refl]|].
    apply keep_better_le_best.
  - intros best.
    assert (E3 : Qltb s (inject_Z s_min_mm / 10) || Qltb (inject_Z s_max_mm / 10) s = false).
    { apply orb_false_iff. split; apply Qltb_false; assumption. }
    rewrite E3.
    rewrite (AS_GRID_at PHI_GRID S_GRID si p Hsi Hp), Hnth.
    assert (E5 : Qltb (as_cm2_per_m (inject_Z p) s + EPS12) (As_req / 100) = false).
    { apply Qltb_false. exact HA. }
    rewrite E5.
    match goal with
    | |- exists b', keep_better ratio best ?c = Some b' /\ _ =>
        destruct (keep_better_le_cand ratio best c) as [b' [Eb Hb]];
        exists b'; split; [exact Eb | exact Hb]
    end.
  - rewrite <- Hnth. apply in_combine_seq_nth. exact Hsi.
Qed.

Lemma Qdiv_le_num_inv (a b d : Q) : 0 < d -> a / d <= b / d -> a <= b.
Proof.
  intros Hd H.
  apply (Qmult_le_compat_r _ _ d) in H; [|lra].
  assert (Ea : a / d * d == a) by (field; intro; lra).
  assert (Eb : b / d * d == b) by (field; intro; lra).
  rewrite Ea, Eb in H. exact H.
Qed.

(** [best_spacing_for_phi]: above the 1e-12 threshold, when some catalog
    spacing within the bounds provides the requirement (within the 1e-12
    tolerance) for a catalog diameter, the search returns such a spacing for
    that diameter, and its ratio is the smallest over all such spacings. *)
Theorem best_spacing_for_phi_optimal (PHI_GRID : list Z) (S_GRID : list Q)
    (As_req : Q) (p : Z) (s_max_mm s_min_mm : Z) (s : Q) :
  EPS12 < As_req -> In p PHI_GRID -> In s S_GRID ->
  inject_Z s_min_mm / 10 <= s -> s <= inject_Z s_max_mm / 10 ->
  As_req / 100 <= as_cm2_per_m (inject_Z p) s + EPS12 ->
  exists c, best_spacing_for_phi PHI_GRID S_GRID As_req p s_max_mm s_min_mm = Some c /\
    phi c = p /\ In (s_cm c) S_GRID /\
    inject_Z s_min_mm / 10 <= s_cm c /\ s_cm c <= inject_Z s_max_mm / 10 /\
    As_req / 100 <= As_prov_cm2_per_m c + EPS12 /\
    forall s', In s' S_GRID -> inject_Z s_min_mm / 10 <= s' -> s' <= inject_Z s_max_mm / 10 ->
      As_req / 100 <= as_cm2_per_m (inject_Z p) s' + EPS12 ->
      ratio c <= as_cm2_per_m (inject_Z p) s' / (As_req / 100).
Proof.
  intros Hreq Hp Hs Hlo Hhi HA.
  destruct (best_spacing_for_phi_min PHI_GRID S_GRID As_req p s_max_mm s_min_mm s
              Hreq Hp Hs Hlo Hhi HA) as [c [Hc _]].
  exists c. split; [exact Hc|].
  destruct (best_spacing_for_phi_sound _ _ _ _ _ _ _ Hreq Hc)
    as [Hphi [_ [Hs' [Hlo' [Hhi' [_ [_ [_ Htol]]]]]]]].
  split; [exact Hphi|]. split; [exact Hs'|]. split; [exact Hlo'|]. split; [exact Hhi'|].
  split; [exact Htol|].
  intros s' Hs2 Hlo2 Hhi2 HA2.
  destruct (best_spacing_for_phi_min PHI_GRID S_GRID As_req p s_max_mm s_min_mm s'
              Hreq Hp Hs2 Hlo2 Hhi2 HA2) as [c' [Hc' Hr]].
  rewrite Hc in Hc'. injection Hc' as <-. exact Hr.
Qed.

(** [choose_single_layer_rebar]: above the 1e-12 threshold, the returned
    choice has a ratio no larger than that of any admitted catalog pair. *)
Theorem choose_single_layer_rebar_optimal (PHI_GRID : list Z) (S_GRID : list Q)
    (As_req : Q) (s_max_mm s_min_mm phi_min : Z) (p : Z) (s : Q) :
  EPS12 < As_req ->
  admitted_pair PHI_GRID S_GRID As_req s_max_mm s_min_mm phi_min p s ->
  ratio (choose_single_layer_rebar PHI_GRID S_GRID As_req s_max_mm s_min_mm phi_min)
    <= as_cm2_per_m (inject_Z p) s / (As_req / 100).
Proof.
  intros Hreq [Hp [Hmin [Hs [Hlo [Hhi HA]]]]].
  unfold choose_single_layer_rebar.
  destruct (Qle_bool As_req EPS12) eqn:E1.
  { apply Qle_bool_iff in E1. exfalso. lra. }
  match goal with
  | |- context [fold_left ?f PHI_GRID None] => set (F := f)
  end.
  destruct (fold_left_min F ratio PHI_GRID None p (as_cm2_per_m (inject_Z p) s / (As_req / 100)))
    as [res [Hres Hr]]; [| | exact Hp | rewrite Hres; exact Hr].
  - intros p' b _. unfold F.
    destruct (Z.ltb p' phi_min); [exists b; split; [reflexivity | apply Qle_refl]|].
    destruct (best_spacing_for_phi PHI_GRID S_GRID As_req p' s_max_mm s_min_mm);
      [apply keep_better_le_best | exists b; split; [reflexivity | apply Qle_refl]].
  - intros best. unfold F.
    assert (E2 : Z.ltb p phi_min = false) by (apply Z.ltb_ge; exact Hmin).
    rewrite E2.
    destruct (best_spacing_for_phi_min PHI_GRID S_GRID As_req p s_max_mm s_min_mm s
                Hreq Hp Hs Hlo Hhi HA) as [c [Hc Hrc]].
    rewrite Hc.
    destruct (keep_better_le_cand ratio best c) as [b' [Eb Hb]].
    exists b'. split; [exact Eb | lra].
Qed.

Lemma admitted_pair_sample_10_19 :
  admitted_pair PHI_GRID_sample S_GRID_sample 400 200 70 8 10 19.
Proof.
  split; [simpl; tauto|]. split; [lia|].
  split; [apply in_map_iff; exists 19%nat; split; [reflexivity | apply in_seq; lia]|].
  split; [apply Qle_bool_iff; reflexivity|]. split; [apply Qle_bool_iff; reflexivity|].
  apply Qle_bool_iff; vm_compute; reflexivity.
Qed.

Lemma choose_single_layer_rebar_optimal_witness :
  EPS12 < 400 /\ admitted_pair PHI_GRID_sample S_GRID_sample 400 200 70 8 10 19 /\
  ratio (choose_single_layer_rebar PHI_GRID_sample S_GRID_sample 400 200 70 8)
    <= as_cm2_per_m (inject_Z 10) 19 / (400 / 100).
Proof.
  assert (H : EPS12 < 400) by reflexivity.
  split; [exact H|]. split; [exact admitted_pair_sample_10_19|].
  exact (choose_single_layer_rebar_optimal _ _ 400 200 70 8 10 19 H admitted_pair_sample_10_19).
Defined.

Lemma best_spacing_for_phi_optimal_witness :
  EPS12 < 400 /\ In 10%Z PHI_GRID_sample /\ In 19 S_GRID_sample /\
  inject_Z 70 / 10 <= 19 /\ 19 <= inject_Z 200 / 10 /\
  400 / 100 <= as_cm2_per_m (inject_Z 10) 19 + EPS12 /\
  exists c, best_spacing_for_phi PHI_GRID_sample S_GRID_sample 400 10 200 70 = Some c /\
    phi c = 10%Z /\ In (s_cm c) S_GRID_sample /\
    inject_Z 70 / 10 <= s_cm c /\ s_cm c <= inject_Z 200 / 10 /\
    400 / 100 <= As_prov_cm2_per_m c + EPS12 /\
    forall s', In s' S_GRID_sample -> inject_Z 70 / 10 <= s' -> s' <= inject_Z 200 / 10 ->
      400 / 100 <= as_cm2_per_m (inject_Z 10) s' + EPS12 ->
      ratio c <= as_cm2_per_m (inject_Z 10) s' / (400 / 100).
Proof.
  destruct admitted_pair_sample_10_19 as [Hp [_ [Hs [Hlo [Hhi HA]]]]].
  assert (H : EPS12 < 400) by reflexivity.
  split; [exact H|]. split; [exact Hp|]. split; [exact Hs|]. split; [exact Hlo|].
  split; [exact Hhi|]. split; [exact HA|].
  exact (best_spacing_for_phi_optimal _ _ 400 10 200 70 19 H Hp Hs Hlo Hhi HA).
Defined.

(** [choose_main_rebar_half_half_same_phi]: when the half requirement is
    above the 1e-12 threshold, the layout's ratio is no larger than that of
    two equal layers of any catalog pair admitted for half the requirement. *)
Theorem choose_main_rebar_half_half_optimal (PHI_GRID : list Z) (S_GRID : list Q)
    (As_req : Q) (s_max_main_mm s_min_main_mm phi_min_main : Z) (p : Z) (s : Q) :
  EPS12 < As_req / 2 ->
  admitted_pair PHI_GRID S_GRID (As_req / 2) s_max_main_mm s_min_main_mm phi_min_main p s ->
  ml_ratio (choose_main_rebar_half_half_same_phi PHI_GRID S_GRID As_req
              s_max_main_mm s_min_main_mm phi_min_main)
    <= 2 * (as_cm2_per_m (inject_Z p) s * 100) / As_req.
Proof.
  intros Hreq [Hp [Hmin [Hs [Hlo [Hhi HA]]]]].
  assert (HE : 0 < EPS12) by reflexivity.
  assert (Hhalf : As_req / 2 == As_req * (1 # 2)) by field.
  pose proof Hreq as Hreq'. rewrite Hhalf in Hreq'.
  assert (Hpos : 0 < As_req) by lra.
  unfold choose_main_rebar_half_half_same_phi.
  destruct (Qle_bool As_req EPS12) eqn:E1.
  { apply Qle_bool_iff in E1. exfalso. lra. }
  cbv zeta.
  match goal with
  | |- context [fold_left ?f PHI_GRID None] => set (F := f)
  end.
  destruct (fold_left_min F ml_ratio PHI_GRID None p
              (2 * (as_cm2_per_m (inject_Z p) s * 100) / As_req))
    as [res [Hres Hr]]; [| | exact Hp | rewrite Hres; exact Hr].
  - intros p' b _. unfold F.
    destruct (Z.ltb p' phi_min_main); [exists b; split; [reflexivity | apply Qle_refl]|].
    destruct (best_spacing_for_phi PHI_GRID S_GRID (As_req / 2) p' s_max_main_mm s_min_main_mm);
      [apply keep_better_le_best | exists b; split; [reflexivity | apply Qle_refl]].
  - intros best. unfold F.
    assert (E2 : Z.ltb p phi_min_main = false) by (apply Z.ltb_ge; exact Hmin).
    rewrite E2.
    destruct (best_spacing_for_phi_min PHI_GRID S_GRID (As_req / 2) p s_max_main_mm s_min_main_mm s
                Hreq Hp Hs Hlo Hhi HA) as [c [Hc Hrc]].
    destruct (best_spacing_for_phi_sound _ _ _ _ _ _ _ Hreq Hc)
      as [_ [_ [_ [_ [_ [_ [Hmm [Hrat _]]]]]]]].
    rewrite Hc.
    match goal with
    | |- exists b', keep_better ml_ratio best ?l = Some b' /\ _ =>
        destruct (keep_better_le_cand ml_ratio best l) as [b' [Eb Hb]]
    end.
    exists b'. split; [exact Eb|].
    cbn [ml_ratio] in Hb. rewrite Hmm in Hb.
    rewrite Hrat in Hrc.
    assert (Hcm : As_prov_cm2_per_m c <= as_cm2_per_m (inject_Z p) s).
    { apply (Qdiv_le_num_inv _ _ (As_req / 2 / 100)); [|exact Hrc].
      apply Qlt_shift_div_l; [reflexivity|]. apply Qlt_shift_div_l; [reflexivity|]. lra. }
    assert (Hq : (As_prov_cm2_per_m c * 100 + As_prov_cm2_per_m c * 100) / As_req
                 <= 2 * (as_cm2_per_m (inject_Z p) s * 100) / As_req)
      by (apply Qdiv_le_num; [exact Hpos | lra]).
    lra.
Qed.

Lemma choose_main_rebar_half_half_optimal_witness :
  EPS12 < 800 / 2 /\ admitted_pair PHI_GRID_sample S_GRID_sample (800 / 2) 200 70 8 10 19 /\
  ml_ratio (choose_main_rebar_half_half_same_phi PHI_GRID_sample S_GRID_sample 800 200 70 8)
    <= 2 * (as_cm2_per_m (inject_Z 10) 19 * 100) / 800.
Proof.
  assert (H : EPS12 < 800 / 2) by reflexivity.
  assert (Ha : admitted_pair PHI_GRID_sample S_GRID_sample (800 / 2) 200 70 8 10 19).
  { destruct admitted_pair_sample_10_19 as [Hp [Hm [Hs [Hlo [Hhi HA]]]]].
    split; [exact Hp|]. split; [exact Hm|]. split; [exact Hs|]. split; [exact Hlo|].
    split; [exact Hhi|]. apply Qle_bool_iff; vm_compute; reflexivity. }
  split; [exact H|]. split; [exact Ha|].
  exact (choose_main_rebar_half_half_optimal _ _ 800 200 70 8 10 19 H Ha).
Defined.


Lemma py_max_le_compat (a b c : Q) : a <= b -> py_max a c <= py_max b c.
Proof. intros H. rewrite !py_max_spec. apply Q.max_le_compat_r. exact H. Qed.

Lemma twoway_core_mono (Ls m1 m2 f1 f2 : Q) :
  0 <= Ls -> 1 <= m1 -> m1 <= m2 -> 0 <= f1 -> f1 <= f2 ->
  Ls * 1000 / (15 + 20 / m1) * f1 <= Ls * 1000 / (15 + 20 / m2) * f2.
Proof.
  intros HL Hm1 Hm12 Hf1 Hf12.
  assert (D1 : 0 <= 20 / m1) by (apply Qle_shift_div_l; lra).
  assert (D2 : 0 <= 20 / m2) by (apply Qle_shift_div_l; lra).
  assert (Hd : 20 / m2 <= 20 / m1) by (apply Qdiv_le_den; lra).
  assert (X : Ls * 1000 / (15 + 20 / m1) <= Ls * 1000 / (15 + 20 / m2))
    by (apply Qdiv_le_den; lra).
  assert (X0 : 0 <= Ls * 1000 / (15 + 20 / m1)) by (apply Qle_shift_div_l; lra).
  set (u1 := Ls * 1000 / (15 + 20 / m1)) in *.
  set (u2 := Ls * 1000 / (15 + 20 / m2)) in *.
  nra.
Qed.

Lemma twoway_m_bounds (Ls Ll : Q) :
  let m := if Qltb (1 # 100) Ls then py_max (Ll / Ls) 1 else 1 in 1 <= m.
Proof.
  cbv zeta. destruct (Qltb (1 # 100) Ls); [|apply Qle_refl].
  apply py_max_ge_r.
Qed.

(** [thickness_check_twoway]: for a non-negative short span and
    alpha_s <= 4, the demanded thickness does not decrease when the long span
    grows or alpha_s decreases, so a slab that passes keeps passing for a
    shorter long span or a larger alpha_s. *)
Theorem thickness_check_twoway_mono (Lsn_short Lsn_long1 Lsn_long2 h_mm alpha1 alpha2 : Q) :
  0 <= Lsn_short -> Lsn_long1 <= Lsn_long2 -> alpha2 <= alpha1 -> alpha1 <= 4 ->
  h_min_mm (thickness_check_twoway Lsn_short Lsn_long1 h_mm alpha1)
    <= h_min_mm (thickness_check_twoway Lsn_short Lsn_long2 h_mm alpha2) /\
  (ok (thickness_check_twoway Lsn_short Lsn_long2 h_mm alpha2) = true ->
   ok (thickness_check_twoway Lsn_short Lsn_long1 h_mm alpha1) = true).
Proof.
  intros HL Hl12 Ha21 Ha1.
  assert (Hmin : h_min_mm (thickness_check_twoway Lsn_short Lsn_long1 h_mm alpha1)
                 <= h_min_mm (thickness_check_twoway Lsn_short Lsn_long2 h_mm alpha2)).
  { unfold thickness_check_twoway. cbn [h_min_mm].
    apply py_max_le_compat.
    pose proof (twoway_m_bounds Lsn_short Lsn_long1) as Hm1. cbv zeta in Hm1.
    apply twoway_core_mono; [exact HL | exact Hm1 | | |].
    - destruct (Qltb (1 # 100) Lsn_short) eqn:E; [|apply Qle_refl].
      apply Qltb_iff in E. apply py_max_le_compat.
      apply Qdiv_le_num; [lra | exact Hl12].
    - assert (E : alpha1 / 4 == alpha1 * (1 # 4)) by field. rewrite E. lra.
    - assert (E1 : alpha1 / 4 == alpha1 * (1 # 4)) by field.
      assert (E2 : alpha2 / 4 == alpha2 * (1 # 4)) by field.
      rewrite E1, E2. lra. }
  split; [exact Hmin|].
  unfold thickness_check_twoway at 1. cbn [ok]. intros H. apply Qle_bool_iff in H.
  unfold thickness_check_twoway. cbn [ok]. apply Qle_bool_iff.
  unfold thickness_check_twoway in Hmin. cbn [h_min_mm] in Hmin. lra.
Qed.

Lemma thickness_check_twoway_mono_witness :
  (0 <= 4 /\ 5 <= 6 /\ 0 <= 1 /\ 1 <= 4) /\
  h_min_mm (thickness_check_twoway 4 5 150 1) <= h_min_mm (thickness_check_twoway 4 6 150 0) /\
  (ok (thickness_check_twoway 4 6 150 0) = true -> ok (thickness_check_twoway 4 5 150 1) = true).
Proof.
  assert (H1 : 0 <= 4) by (apply Qle_bool_iff; reflexivity).
  assert (H2 : 5 <= 6) by (apply Qle_bool_iff; reflexivity).
  assert (H3 : 0 <= 1) by (apply Qle_bool_iff; reflexivity).
  assert (H4 : 1 <= 4) by (apply Qle_bool_iff; reflexivity).
  split; [split; [exact H1 | split; [exact H2 | split; [exact H3 | exact H4]]]|].
  exact (thickness_check_twoway_mono 4 5 6 150 1 0 H1 H2 H3 H4).
Defined.

(** The thickness check of [compute]: a one-way slab needs
    max(L_long x 1000 / 30, 80) mm (the 0.1 m floor of the one-way check is
    never active on net spans); a two-way slab (1 <= m <= 2) needs between
    max(L_short x 1000 / 35, 80) and max(L_short x 1000 / 25, 80) mm. *)
Theorem compute_thickness_check_bounds (data : Geometry) (h_mm : Q) :
  let Lsn_x := fst (net_spans data) in
  let Lsn_y := snd (net_spans data) in
  let thk := compute_thickness_check data h_mm in
  match slab_type data with
  | one_way => h_min_mm thk == Qmax (Qmax Lsn_x Lsn_y * 1000 / 30) 80
  | two_way =>
      Qmax (Qmin Lsn_x Lsn_y * 1000 / 35) 80 <= h_min_mm thk /\
      h_min_mm thk <= Qmax (Qmin Lsn_x Lsn_y * 1000 / 25) 80
  end.
Proof.
  cbv zeta. unfold compute_thickness_check.
  destruct (net_spans data) as [a b] eqn:E. cbn [fst snd].
  assert (Ha : 1 # 10 <= a).
  { unfold net_spans in E. injection E as <- _. apply calculate_net_span_ge. }
  assert (Hb : 1 # 10 <= b).
  { unfold net_spans in E. injection E as _ <-. apply calculate_net_span_ge. }
  assert (Hs : 1 # 10 <= py_min a b) by (unfold py_min; destruct (Qltb b a); assumption).
  assert (Hg : Qltb (1 # 100) (py_min a b) = true) by (apply Qltb_iff; lra).
  assert (Har : aspect_ratio data = py_max a b / py_min a b).
  { unfold aspect_ratio. rewrite E. rewrite Hg. reflexivity. }
  unfold slab_type. rewrite Har.
  destruct (Qltb 2 (py_max a b / py_min a b)) eqn:Et; cbv beta iota zeta.
  - unfold thickness_check_oneway. cbn [h_min_mm].
    rewrite <- (py_max_spec a b).
    assert (Hl : 1 # 10 <= py_max a b) by (rewrite py_max_spec; apply (Qle_trans _ a); [exact Ha | apply Q.le_max_l]).
    assert (E1 : py_max (py_max a b) (1 # 10) = py_max a b).
    { unfold py_max at 1. rewrite (proj2 (Qltb_false _ _) Hl). reflexivity. }
    rewrite E1. rewrite (py_max_spec (py_max a b * 1000 / 30) 80). reflexivity.
  - apply Qltb_false in Et.
    unfold thickness_check_twoway. rewrite Hg. cbn [h_min_mm].
    rewrite <- (py_min_spec a b).
    set (Ls := py_min a b) in *. set (Ll := py_max a b) in *.
    set (m := py_max (Ll / Ls) 1).
    assert (Hm1 : 1 <= m) by apply py_max_ge_r.
    assert (Hm2 : m <= 2) by (unfold m; rewrite py_max_spec; apply Q.max_lub; lra).
    assert (Hf : 1 - 0 / 4 == 1) by reflexivity.
    rewrite py_max_spec, Hf, Qmult_1_r.
    assert (D1 : 10 <= 20 / m) by (apply Qle_shift_div_l; lra).
    assert (D2 : 20 / m <= 20) by (apply Qle_shift_div_r; lra).
    assert (E35 : Ls * 1000 / 35 <= Ls * 1000 / (15 + 20 / m)) by (apply Qdiv_le_den; lra).
    assert (E25 : Ls * 1000 / (15 + 20 / m) <= Ls * 1000 / 25) by (apply Qdiv_le_den; lra).
    split; apply Q.max_le_compat_r; assumption.
Qed.

Lemma py_int_floor (x : Q) : 0 <= x -> py_int x = Qfloor x.
Proof.
  destruct x as [n d]. unfold Qle. simpl. intros H. unfold py_int, Qfloor. simpl.
  apply Z.quot_div_nonneg; lia.
Qed.

(** The spacing limits of [compute] for a non-negative thickness: both lie
    in 0..200 mm with the bottom one below the top one; the top limit is
    200 mm from h = 100 mm on and the bottom one from h = 400/3 mm on. *)
Theorem spacing_limits_bounds (h_mm : Q) :
  0 <= h_mm ->
  (0 <= fst (spacing_limits h_mm) <= snd (spacing_limits h_mm))%Z /\
  (snd (spacing_limits h_mm) <= 200)%Z /\
  (100 <= h_mm -> snd (spacing_limits h_mm) = 200%Z) /\
  (400 # 3 <= h_mm -> fst (spacing_limits h_mm) = 200%Z).
Proof.
  intros H. unfold spacing_limits. cbn [fst snd].
  set (b := py_min ((3 # 2) * h_mm) 200). set (t := py_min (2 * h_mm) 200).
  assert (Eb : b == Qmin ((3 # 2) * h_mm) 200) by apply py_min_spec.
  assert (Et : t == Qmin (2 * h_mm) 200) by apply py_min_spec.
  assert (Hb0 : 0 <= b) by (rewrite Eb; apply Q.min_glb; lra).
  assert (Hbt : b <= t) by (rewrite Eb, Et; apply Q.min_le_compat_r; lra).
  assert (Ht2 : t <= 200) by (rewrite Et; apply Q.le_min_r).
  rewrite (py_int_floor b Hb0), (py_int_floor t ltac:(lra)).
  assert (F0 : Qfloor 0 = 0%Z) by reflexivity.
  assert (F200 : Qfloor 200 = 200%Z) by reflexivity.
  split; [split|].
  - rewrite <- F0. apply Qfloor_resp_le. exact Hb0.
  - apply Qfloor_resp_le. exact Hbt.
  - split; [rewrite <- F200; apply Qfloor_resp_le; exact Ht2|].
    split; intros Hh.
    + assert (E : t == 200) by (rewrite Et; apply Q.min_r; lra). rewrite E. reflexivity.
    + assert (E : b == 200) by (rewrite Eb; apply Q.min_r; lra). rewrite E. reflexivity.
Qed.

Lemma spacing_limits_bounds_witness :
  0 <= 120 /\
  (0 <= fst (spacing_limits 120) <= snd (spacing_limits 120))%Z /\
  (snd (spacing_limits 120) <= 200)%Z /\
  (100 <= 120 -> snd (spacing_limits 120) = 200%Z) /\
  (400 # 3 <= 120 -> fst (spacing_limits 120) = 200%Z).
Proof.
  assert (H : 0 <= 120) by (apply Qle_bool_iff; reflexivity).
  split; [exact H|]. exact (spacing_limits_bounds 120 H).
Defined.

(** [compute_oneway]: both coefficient moments grow with the square of the
    long net span. *)
Lemma oneway_moments_span_scale (coefs : list (string * Q)) (pd L_long_net k : Q) :
  fst (oneway_moments coefs pd (k * L_long_net)) == k * k * fst (oneway_moments coefs pd L_long_net) /\
  snd (oneway_moments coefs pd (k * L_long_net)) == k * k * snd (oneway_moments coefs pd L_long_net).
Proof.
  unfold oneway_moments, dict_get_or; cbn.
  destruct (str_dict_get coefs "pos"), (str_dict_get coefs "neg"), (str_dict_get coefs "neg_cont");
    cbn; split; ring.
Qed.

(** [compute_oneway]: the direction that is not the long one gets no main
    bottom or top reinforcement; when [M_pos > 0] the main bottom area is at
    least 0.2% of [b d] (the smallest [rho_min]) and the distribution
    requirement [max(0.20 As_main, 0.0012 b h)] is placed on the other
    direction; when [M_pos <= 0] nothing is required and no distribution
    requirement is set; the top area follows [M_neg] in the same way. *)
Theorem oneway_requirements_spec (K_TABLE_ROWS : list KRow) (M_pos M_neg : Q) (x_is_long : bool)
    (d_m d_mm b_mm h_mm fck : Q) (steel : string) (r : OnewayReq)
    (Hb : 0 < b_mm) (Hd : 0 < d_mm)
    (Hr : oneway_requirements K_TABLE_ROWS M_pos M_neg x_is_long d_m d_mm b_mm h_mm fck steel = Some r) :
  let main := if x_is_long then oneway_Asx_req r else oneway_Asy_req r in
  let main_neg := if x_is_long then oneway_Asx_neg_req r else oneway_Asy_neg_req r in
  let cross := if x_is_long then oneway_Asy_req r else oneway_Asx_req r in
  let cross_neg := if x_is_long then oneway_Asy_neg_req r else oneway_Asx_neg_req r in
  cross = 0 /\ cross_neg = 0 /\
  (0 < M_pos -> (2 # 1000) * b_mm * d_mm <= main /\
     oneway_dist r = Some (x_is_long, py_max (main * (20 # 100)) ((12 # 10000) * b_mm * h_mm))) /\
  (M_pos <= 0 -> main = 0 /\ oneway_dist r = None) /\
  (0 < M_neg -> (2 # 1000) * b_mm * d_mm <= main_neg) /\
  (M_neg <= 0 -> main_neg = 0).
Proof.
  assert (Hrho := rho_min_oneway_ge steel).
  assert (Hmin : (2 # 1000) * b_mm * d_mm <= rho_min_oneway steel * b_mm * d_mm).
  { apply Qmult_le_compat_r; [apply Qmult_le_compat_r|]; lra. }
  assert (Hpos : 0 < (2 # 1000) * b_mm * d_mm).
  { apply Qmult_lt_0_compat; [apply Qmult_lt_0_compat|]; lra. }
  assert (Hmax : forall a, (2 # 1000) * b_mm * d_mm <= py_max a (rho_min_oneway steel * b_mm * d_mm)).
  { intro a. rewrite py_max_spec. eapply Qle_trans; [exact Hmin|]. apply Q.le_max_r. }
  assert (H00 : Qltb 0 0 = false) by reflexivity.
  unfold oneway_requirements in Hr.
  destruct x_is_long; cbn -[py_max Qltb calc_K_and_As_from_M] in Hr |- *.
  all: repeat match type of Hr with
    | context [calc_K_and_As_from_M ?R ?M ?d ?f ?s] =>
        let E := fresh "E" in destruct (calc_K_and_As_from_M R M d f s) eqn:E; [|discriminate]
    end.
  all: cbn -[py_max Qltb] in Hr; injection Hr as <-; cbn -[py_max Qltb].
  all: destruct (Qltb 0 M_pos) eqn:Ep; destruct (Qltb 0 M_neg) eqn:En; bool_facts.
  all: repeat split; intros; try reflexivity; try lra; try apply Hmax.
  all: match goal with
       | |- (if Qltb 0 ?a then _ else _) = _ =>
           assert (Ha : Qltb 0 a = true) by (apply Qltb_iff; eapply Qlt_le_trans; [exact Hpos|apply Hmax]);
           rewrite Ha; reflexivity
       end.
Qed.

Lemma oneway_requirements_spec_witness :
  let r := mkOnewayReq
             (36871200000000000000000000000000 # 20520000000000000000000000000) 0
             (82425600000000000000000000000000 # 21600000000000000000000000000) 0
             (Some (true, 737424000000000000000000000000000 # 2052000000000000000000000000000)) in
  0 < 1000 /\ 0 < 120 /\
  oneway_requirements K_TABLE_ROWS_sample 72 144 true (12 # 100) 120 1000 150 30 "S420" = Some r /\
  (2 # 1000) * 1000 * 120 <= oneway_Asx_req r /\
  oneway_dist r = Some (true, py_max (oneway_Asx_req r * (20 # 100)) ((12 # 10000) * 1000 * 150)) /\
  (2 # 1000) * 1000 * 120 <= oneway_Asx_neg_req r.
Proof.
  intro r.
  assert (Hb : 0 < 1000) by reflexivity.
  assert (Hd : 0 < 120) by reflexivity.
  assert (Hr : oneway_requirements K_TABLE_ROWS_sample 72 144 true (12 # 100) 120 1000 150 30 "S420"
               = Some r) by (vm_compute; reflexivity).
  pose proof (oneway_requirements_spec K_TABLE_ROWS_sample 72 144 true (12 # 100) 120 1000 150 30
                "S420" r Hb Hd Hr) as H.
  cbv zeta in H.
  destruct H as (_ & _ & Hp & _ & Hn & _).
  destruct (Hp ltac:(reflexivity)) as [Hm Hdist].
  exact (conj Hb (conj Hd (conj Hr (conj Hm (conj Hdist (Hn ltac:(reflexivity))))))).
Defined.
